(** * Orbit-file selection for Sentinel-1 products (eof/scihubclient.py)

    A shallow embedding of the parser of orbit-product identifiers
    ([get_validity_info]), of the coverage selector ([lastval_cover]) and of
    the query orchestration of [ScihubGnssClient], together with the
    properties the specification states about them.

    Conventions of the embedding:
    - a Python [str] is a [string]; the regular-expression engine works on
      [list ascii].  Characters are the code points 0..255 (ASCII and
      Latin-1), on which the classes [\d] and [\w] are tabulated below;
    - a naive [datetime.datetime] is the record of its seven integer fields,
      compared field by field as CPython does;
    - a raising call returns [Raise e], a returning call [Ok v];
    - [get_validity_info] is embedded for [pattern=None], the only way the
      repository calls it;
    - [re], [strptime] and the arithmetic of [datetime] belong to the
      Python library; they are embedded from their documented behaviour, on
      the inputs the client gives them;
    - the catalog ([GnssAPI]) and the product class ([products.Sentinel])
      are parameters of the client; logging is left out. *)

From stdpp Require Import base gmap.
From Stdlib Require Import ZArith List String Ascii Bool Lia Permutation Sorted.
Import ListNotations.

Local Open Scope Z_scope.

(** ** Exceptions and results *)

Inductive exc_type :=
| TException
| TValueError
| TValidityError        (* class ValidityError(ValueError) *)
| TLookupError
| TIndexError
| TAssertionError
| TArithmeticError
| TOverflowError.

Inductive exception :=
| ValueError (msg : string)
| ValidityError (msg : string)
| IndexError (msg : string)
| ExternalError (msg : string)   (* an error of a collaborator *)
| AssertionError
| OverflowError (msg : string).

Definition type_of (e : exception) : exc_type :=
  match e with
  | ValueError _ => TValueError
  | ValidityError _ => TValidityError
  | IndexError _ => TIndexError
  | ExternalError _ => TException
  | AssertionError => TAssertionError
  | OverflowError _ => TOverflowError
  end.

Definition exc_type_eqb (a b : exc_type) : bool :=
  match a, b with
  | TException, TException
  | TValueError, TValueError
  | TValidityError, TValidityError
  | TLookupError, TLookupError
  | TIndexError, TIndexError
  | TAssertionError, TAssertionError
  | TArithmeticError, TArithmeticError
  | TOverflowError, TOverflowError => true
  | _, _ => false
  end.

(** The direct base class of each exception class. *)
Definition base (t : exc_type) : option exc_type :=
  match t with
  | TException => None
  | TValueError => Some TException
  | TValidityError => Some TValueError
  | TLookupError => Some TException
  | TIndexError => Some TLookupError
  | TAssertionError => Some TException
  | TArithmeticError => Some TException
  | TOverflowError => Some TArithmeticError
  end.

Fixpoint issubclass_fuel (n : nat) (a b : exc_type) : bool :=
  exc_type_eqb a b ||
  match n with
  | O => false
  | S n' => match base a with
            | Some a' => issubclass_fuel n' a' b
            | None => false
            end
  end.

(** The hierarchy has depth three. *)
Definition issubclass (a b : exc_type) : bool := issubclass_fuel 3 a b.

Definition isinstance (e : exception) (t : exc_type) : bool :=
  issubclass (type_of e) t.

Inductive result (A : Type) :=
| Ok (a : A)
| Raise (e : exception).
Arguments Ok {A} a.
Arguments Raise {A} e.

Definition bind {A B} (r : result A) (k : A -> result B) : result B :=
  match r with
  | Ok a => k a
  | Raise e => Raise e
  end.

Notation "'let*' x ':=' r 'in' k" := (bind r (fun x => k))
  (at level 10, x name, r at level 100, k at level 200).

(** ** Naive datetimes *)

Record datetime := mk_datetime {
  year : Z; month : Z; day : Z;
  hour : Z; minute : Z; second : Z; microsecond : Z
}.

Definition datetime_tuple (d : datetime) : list Z :=
  [year d; month d; day d; hour d; minute d; second d; microsecond d].

(** Python's comparison of tuples of integers. *)
Fixpoint tuple_cmp (a b : list Z) : comparison :=
  match a, b with
  | [], [] => Eq
  | [], _ :: _ => Lt
  | _ :: _, [] => Gt
  | x :: a', y :: b' =>
      match x ?= y with
      | Eq => tuple_cmp a' b'
      | c => c
      end
  end.

(** [datetime._cmp] *)
Definition datetime_cmp (x y : datetime) : comparison :=
  tuple_cmp (datetime_tuple x) (datetime_tuple y).

(** [x <= y], [x >= y] and [x < y] on datetimes. *)
Definition dt_leb (x y : datetime) : bool :=
  match datetime_cmp x y with Gt => false | _ => true end.
Definition dt_geb (x y : datetime) : bool :=
  match datetime_cmp x y with Lt => false | _ => true end.
Definition dt_ltb (x y : datetime) : bool :=
  match datetime_cmp x y with Lt => true | _ => false end.

(** The chronological order the claims speak of: [x] is before [y] when
    the first field in which they differ, from the year down to the
    microsecond, is smaller in [x]. *)
Definition dt_lt (x y : datetime) : Prop :=
  year x < year y \/ year x = year y /\
  (month x < month y \/ month x = month y /\
   (day x < day y \/ day x = day y /\
    (hour x < hour y \/ hour x = hour y /\
     (minute x < minute y \/ minute x = minute y /\
      (second x < second y \/ second x = second y /\
       microsecond x < microsecond y))))).

Definition dt_le (x y : datetime) : Prop := dt_lt x y \/ x = y.

(** ** Validity records *)

Record ValidityInfo := mk_ValidityInfo {
  product_id : string;
  generation_date : datetime;
  start_validity : datetime;
  stop_validity : datetime
}.

(** ** Rendering a datetime: [str(datetime)]

    [zpad w n] is the ["%0wd"] rendering of [n], exact for
    [0 <= n < 10^w], the range of every field of a datetime. *)

Definition digit_char (n : Z) : ascii := ascii_of_N (48 + Z.to_N n).

Fixpoint digits (width : nat) (n : Z) : list ascii :=
  match width with
  | O => []
  | S w => digits w (n / 10) ++ [digit_char (n mod 10)]
  end.

Definition zpad (width : nat) (n : Z) : string :=
  string_of_list_ascii (digits width n).

(** [datetime.__str__] is [isoformat(sep=' ')]: the fraction is printed
    only when the microsecond is not zero. *)
Definition datetime_str (d : datetime) : string :=
  (zpad 4 (year d) ++ "-" ++ zpad 2 (month d) ++ "-" ++ zpad 2 (day d) ++ " " ++
   zpad 2 (hour d) ++ ":" ++ zpad 2 (minute d) ++ ":" ++ zpad 2 (second d) ++
   (if Z.eqb (microsecond d) 0 then "" else "." ++ zpad 6 (microsecond d)))%string.

(** ** [list.sort(key=..., reverse=...)]

    CPython's sort is stable and compares keys with [<] only; with
    [reverse=True] it reverses the list, sorts it forward and reverses the
    result, which keeps equal keys in their original order.  The forward
    sort is embedded as the stable insertion sort (every stable sort
    computes the same list). *)

Section Sort.
Context {A K : Type} (key : A -> K) (ltb : K -> K -> bool).

Fixpoint insert_stable (x : A) (l : list A) : list A :=
  match l with
  | [] => [x]
  | y :: l' =>
      if ltb (key y) (key x) then y :: insert_stable x l'
      else x :: y :: l'
  end.

Definition sort_stable (l : list A) : list A :=
  fold_right insert_stable [] l.

Definition list_sort (reverse : bool) (l : list A) : list A :=
  if reverse then rev (sort_stable (rev l)) else sort_stable l.
End Sort.

(** ** The coverage selector *)

(** A record covers [(t0, t1)] when its validity interval contains it, both
    bounds included. *)
Definition Covers (t0 t1 : datetime) (r : ValidityInfo) : Prop :=
  dt_le (start_validity r) t0 /\ dt_le t1 (stop_validity r).

(** The condition of the list comprehension of [lastval_cover]. *)
Definition covers (t0 t1 : datetime) (item : ValidityInfo) : bool :=
  dt_leb (start_validity item) t0 && dt_geb (stop_validity item) t1.

Definition candidates_of (t0 t1 : datetime) (data : list ValidityInfo)
  : list ValidityInfo :=
  List.filter (covers t0 t1) data.

Definition no_cover_msg (t0 t1 : datetime) : string :=
  ("none of the input products completely covers the requested " ++
   "time interval: [t0=" ++ datetime_str t0 ++ ", t1=" ++ datetime_str t1 ++ "]")%string.

Definition lastval_cover (t0 t1 : datetime) (data : list ValidityInfo)
  : result string :=
  let candidates := candidates_of t0 t1 data in
  match candidates with
  | [] => Raise (ValidityError (no_cover_msg t0 t1))
  | _ :: _ =>
      let candidates := list_sort generation_date dt_ltb true candidates in
      match candidates with
      | c :: _ => Ok (product_id c)
      | [] => Raise (IndexError "list index out of range")
      end
  end.

(** *** The same function on a store of list objects

    [data] is a reference to a list object; the list comprehension builds a
    new list object, and [candidates.sort] updates that object in place.
    The call is undefined ([None]) on a dangling reference, which Python
    cannot produce. *)

Definition alloc (v : list ValidityInfo) (h : gmap nat (list ValidityInfo))
  : nat * gmap nat (list ValidityInfo) :=
  let l := fresh (dom h) in (l, <[l := v]> h).

Definition lastval_cover_store (t0 t1 : datetime) (data : nat)
    (h : gmap nat (list ValidityInfo))
  : option (result string * gmap nat (list ValidityInfo)) :=
  match h !! data with
  | None => None
  | Some items =>
      let '(candidates, h1) := alloc (List.filter (covers t0 t1) items) h in
      match h1 !! candidates with
      | None => None
      | Some [] => Some (Raise (ValidityError (no_cover_msg t0 t1)), h1)
      | Some (c0 :: cs) =>
          let h2 := <[candidates :=
                        list_sort generation_date dt_ltb true (c0 :: cs)]> h1 in
          match h2 !! candidates with
          | None => None
          | Some (c :: _) => Some (Ok (product_id c), h2)
          | Some [] => Some (Raise (IndexError "list index out of range"), h2)
          end
      end
  end.

(** ** Regular expressions

    The fragment of Python's [re] that the pattern of [get_validity_info]
    uses, with the backtracking semantics of the [re] module: a greedy
    quantifier takes as many characters as it can and gives them back one
    by one while what follows fails.  The matcher is written in
    continuation-passing style; [k] matches what follows. *)

Inductive regex :=
| Chr (c : ascii)                 (* a literal character *)
| Cls (p : ascii -> bool)         (* a character class: \d, \w *)
| Cat (r1 r2 : regex)             (* r1 r2 *)
| Rep (n : nat) (r : regex)       (* r{n} *)
| Star (p : ascii -> bool)        (* c* on a class, greedy *)
| Plus (p : ascii -> bool)        (* c+ on a class, greedy *)
| Grp (name : string) (r : regex).  (* (?P<name>r) *)

(** What the named groups have captured, the latest first. *)
Definition groups := list (string * list ascii).

Fixpoint star_k {R} (p : ascii -> bool) (k : list ascii -> option R)
    (s : list ascii) : option R :=
  match s with
  | c :: s' =>
      if p c then
        match star_k p k s' with
        | Some r => Some r
        | None => k s
        end
      else k s
  | [] => k s
  end.

Fixpoint rep_k {R}
    (m : list ascii -> groups -> (list ascii -> groups -> option R) -> option R)
    (n : nat) (s : list ascii) (g : groups)
    (k : list ascii -> groups -> option R) : option R :=
  match n with
  | O => k s g
  | S n' => m s g (fun s' g' => rep_k m n' s' g' k)
  end.

Fixpoint rmatch {R} (r : regex) (s : list ascii) (g : groups)
    (k : list ascii -> groups -> option R) : option R :=
  match r with
  | Chr c =>
      match s with
      | c' :: s' => if Ascii.eqb c c' then k s' g else None
      | [] => None
      end
  | Cls p =>
      match s with
      | c' :: s' => if p c' then k s' g else None
      | [] => None
      end
  | Cat r1 r2 => rmatch r1 s g (fun s' g' => rmatch r2 s' g' k)
  | Rep n r' => rep_k (rmatch r') n s g k
  | Star p => star_k p (fun s' => k s' g) s
  | Plus p =>
      match s with
      | c :: s' => if p c then star_k p (fun s' => k s' g) s' else None
      | [] => None
      end
  | Grp name r' =>
      rmatch r' s g
        (fun s' g' =>
           k s' ((name, firstn (List.length s - List.length s') s) :: g'))
  end.

(** [pattern.match(s)]: the match is anchored at the start of [s] and need
    not reach its end.  The result is the match object, here the groups. *)
Definition re_match (r : regex) (s : list ascii) : option groups :=
  rmatch r s [] (fun _ g => Some g).

Fixpoint lookup_group (name : string) (g : groups) : option (list ascii) :=
  match g with
  | [] => None
  | (n, v) :: g' => if String.eqb n name then Some v else lookup_group name g'
  end.

(** [mobj.group(name)] *)
Definition group (mobj : groups) (name : string) : result (list ascii) :=
  match lookup_group name mobj with
  | Some v => Ok v
  | None => Raise (IndexError "no such group")
  end.

(** The classes [\d] and [\w] of a [str] pattern, on the code points
    0..255: the decimal digits are [0-9]; the word characters are the
    alphanumeric characters and the underscore, and the alphanumeric
    characters of Latin-1 are listed by code. *)
Definition is_digit (c : ascii) : bool :=
  let n := N_of_ascii c in ((48 <=? n) && (n <=? 57))%N.

Definition is_word (c : ascii) : bool :=
  let n := N_of_ascii c in
  (is_digit c
   || ((65 <=? n) && (n <=? 90))        (* A-Z *)
   || (n =? 95)                         (* _ *)
   || ((97 <=? n) && (n <=? 122))       (* a-z *)
   || (n =? 170) || (n =? 178) || (n =? 179) || (n =? 181)
   || (n =? 185) || (n =? 186)
   || ((188 <=? n) && (n <=? 190))
   || ((192 <=? n) && (n <=? 214))
   || ((216 <=? n) && (n <=? 246))
   || (248 <=? n))%N.

Declare Scope regex_scope.
Delimit Scope regex_scope with re.
Infix "·" := Cat (at level 60, right associativity) : regex_scope.

(** [\d{8}T\d{6}] *)
Definition timestamp_re : regex :=
  (Rep 8 (Cls is_digit) · Chr "T" · Rep 6 (Cls is_digit))%re.

(** What follows [S1\w+] in the pattern:
    [_(?P<generation_date>\d{8}T\d{6})_V(?P<start_validity>\d{8}T\d{6})_(?P<stop_validity>\d{8}T\d{6})\w*] *)
Definition validity_re : regex :=
  (Chr "_" · Grp "generation_date" timestamp_re ·
   Chr "_" · Chr "V" · Grp "start_validity" timestamp_re ·
   Chr "_" · Grp "stop_validity" timestamp_re · Star is_word)%re.

(** The generic pattern of [get_validity_info]. *)
Definition default_pattern : regex :=
  (Chr "S" · Chr "1" · Plus is_word · validity_re)%re.

(** ** [datetime.datetime.strptime(s, DATE_FMT)]

    [DATE_FMT = '%Y%m%dT%H%M%S'].  The function is embedded on the strings
    of the shape [\d{8}T\d{6}], which is all that the groups of the pattern
    capture; on such a string the directives read four digits for the year
    and two for the month and the day, or nothing matches.  After [T] each
    of [%H], [%M] and [%S] reads two digits when they make a value it
    accepts (up to 23, 59 and 61) and one digit otherwise, and what is left
    unread is reported.  The date and the second are then checked by the
    constructors.  Every failure is a [ValueError]; the messages are those
    of CPython 3.8.  On any other string the embedding answers with the
    mismatch error. *)

Definition digit_val (c : ascii) : Z := Z.of_N (N_of_ascii c) - 48.

(** [int(s)] on a string of decimal digits. *)
Definition int_of_digits (l : list ascii) : Z :=
  fold_left (fun acc c => 10 * acc + digit_val c) l 0.

Definition is_leap (y : Z) : bool :=
  (y mod 4 =? 0) && (negb (y mod 100 =? 0) || (y mod 400 =? 0)).

Definition days_in_month (y m : Z) : Z :=
  if m =? 2 then (if is_leap y then 29 else 28)
  else if (m =? 4) || (m =? 6) || (m =? 9) || (m =? 11) then 30
  else 31.

(** A directive that reads two digits when their value is at most [limit]
    and one digit otherwise; the result is what is left to read. *)
Definition skip_field (limit : Z) (l : list ascii) : list ascii :=
  match l with
  | a :: b :: r => if int_of_digits [a; b] <=? limit then r else b :: r
  | _ => []
  end.

Definition quote (s : list ascii) : string :=
  ("'" ++ string_of_list_ascii s ++ "'")%string.

Definition strptime_mismatch (data : list ascii) : exception :=
  ValueError ("time data " ++ quote data ++
              " does not match format '%Y%m%dT%H%M%S'")%string.

(** The fields of a text of the shape [\d{8}T\d{6}], each read as a
    decimal number. *)
Definition read_fields (data : list ascii) : option datetime :=
  match data with
  | [y1; y2; y3; y4; m1; m2; d1; d2; t; h1; h2; n1; n2; s1; s2] =>
      if forallb is_digit [y1; y2; y3; y4; m1; m2; d1; d2; h1; h2; n1; n2; s1; s2]
         && Ascii.eqb t "T"
      then Some (mk_datetime (int_of_digits [y1; y2; y3; y4])
                   (int_of_digits [m1; m2]) (int_of_digits [d1; d2])
                   (int_of_digits [h1; h2]) (int_of_digits [n1; n2])
                   (int_of_digits [s1; s2]) 0)
      else None
  | _ => None
  end.

Definition strptime (data : list ascii) : result datetime :=
  match read_fields data with
  | None => Raise (strptime_mismatch data)
  | Some d =>
      if (1 <=? month d) && (month d <=? 12) && (1 <=? day d) && (day d <=? 31)
      then
        match skip_field 61 (skip_field 59 (skip_field 23 (skipn 9 data))) with
        | [] =>
            if year d =? 0 then Raise (ValueError "year 0 is out of range")
            else if days_in_month (year d) (month d) <? day d then
              Raise (ValueError "day is out of range for month")
            else if 59 <? second d then
              Raise (ValueError "second must be in 0..59")
            else Ok d
        | rest =>
            Raise (ValueError ("unconverted data remains: " ++
                               string_of_list_ascii rest)%string)
        end
      else Raise (strptime_mismatch data)
  end.

(** ** The identifier parser *)

Definition dquote : string := String "034"%char EmptyString.

(** The message of the [ValueError] for an identifier that the pattern does
    not match (spelt as in the source). *)
Definition no_match_msg (product_id : string) : string :=
  (dquote ++ product_id ++ dquote ++ " does not math the regular expression " ++
   "for validity")%string.

(** One turn of the loop of [get_validity_info]: the record for
    [product_id].  The dictionary comprehension reads and converts the
    groups in the order of [keys]. *)
Definition validity_info_of (product_id : string) : result ValidityInfo :=
  match re_match default_pattern (list_ascii_of_string product_id) with
  | Some mobj =>
      let* generation_date :=
        (let* v := group mobj "generation_date" in strptime v) in
      let* start_validity :=
        (let* v := group mobj "start_validity" in strptime v) in
      let* stop_validity :=
        (let* v := group mobj "stop_validity" in strptime v) in
      Ok (mk_ValidityInfo product_id generation_date start_validity stop_validity)
  | None => Raise (ValueError (no_match_msg product_id))
  end.

Fixpoint get_validity_info_loop (products : list string)
    (out : list ValidityInfo) : result (list ValidityInfo) :=
  match products with
  | [] => Ok out
  | product_id :: rest =>
      let* info := validity_info_of product_id in
      get_validity_info_loop rest (out ++ [info])
  end.

Definition get_validity_info (products : list string)
  : result (list ValidityInfo) :=
  get_validity_info_loop products [].

(** *** The identifier format of the specification

    [<prefix>_<generation>_V<start>_<stop><trailing>], each timestamp in
    the compact form [YYYYMMDD], [T], [HHMMSS]. *)

Definition compact (d : datetime) : list ascii :=
  digits 4 (year d) ++ digits 2 (month d) ++ digits 2 (day d) ++
  "T"%char ::
  digits 2 (hour d) ++ digits 2 (minute d) ++ digits 2 (second d).

Definition validity_block (generation start stop : datetime) : list ascii :=
  "_"%char :: compact generation ++
  "_"%char :: "V"%char :: compact start ++
  "_"%char :: compact stop.

Definition format_identifier (prefix : list ascii) (generation start stop : datetime)
    (trailing : list ascii) : string :=
  string_of_list_ascii
    (prefix ++ validity_block generation start stop ++ trailing).

(** A datetime with a resolution of one second, as the compact form
    carries it. *)
Definition valid_datetime (d : datetime) : bool :=
  (1 <=? year d) && (year d <=? 9999) &&
  (1 <=? month d) && (month d <=? 12) &&
  (1 <=? day d) && (day d <=? days_in_month (year d) (month d)) &&
  (0 <=? hour d) && (hour d <=? 23) &&
  (0 <=? minute d) && (minute d <=? 59) &&
  (0 <=? second d) && (second d <=? 59) &&
  (microsecond d =? 0).

(** The identifiers the pattern matches. *)
Definition matches (product_id : string) : bool :=
  match re_match default_pattern (list_ascii_of_string product_id) with
  | Some _ => true
  | None => false
  end.

(** A text of the shape [\d{8}T\d{6}] that denotes a date of the calendar
    and a time of the day. *)
Definition valid_timestamp (ts : list ascii) : bool :=
  match read_fields ts with
  | Some d => valid_datetime d
  | None => false
  end.

Definition keys : list string :=
  ["generation_date"; "start_validity"; "stop_validity"]%string.

(** The identifiers the pattern matches with three valid timestamps in its
    groups. *)
Definition well_dated (product_id : string) : bool :=
  match re_match default_pattern (list_ascii_of_string product_id) with
  | Some mobj =>
      forallb (fun name =>
                 match lookup_group name mobj with
                 | Some ts => valid_timestamp ts
                 | None => false
                 end) keys
  | None => false
  end.

(** The block of the three timestamps is found again at a later position
    [i] that [\w+] can reach, that is, after [i] word characters. *)
Definition later_block (v : list ascii) : bool :=
  existsb
    (fun i => forallb is_word (firstn i v) &&
              match re_match validity_re (skipn i v) with
              | Some _ => true
              | None => false
              end)
    (seq 1 (List.length v)).

(** ** [datetime] and [timedelta] arithmetic

    A datetime is a number of microseconds on the proleptic Gregorian
    calendar, counted from the start of day 0, the day before
    0001-01-01.  [datetime + timedelta] and [datetime - timedelta] add and
    subtract on that scale and raise [OverflowError] when the day leaves
    [1 .. 3652059] (0001-01-01 .. 9999-12-31).  The conversions are those of
    the [datetime] module ([_ymd2ord], [_ord2ymd]). *)

Record timedelta := mk_timedelta {
  td_days : Z; td_seconds : Z; td_microseconds : Z
}.

(** [timedelta(days=n)] *)
Definition timedelta_days (n : Z) : timedelta := mk_timedelta n 0 0.

Definition timedelta_micro (td : timedelta) : Z :=
  (td_days td * 86400 + td_seconds td) * 1000000 + td_microseconds td.

Definition days_before_year (y : Z) : Z :=
  let y := y - 1 in y * 365 + y / 4 - y / 100 + y / 400.

Definition days_before_month (y m : Z) : Z :=
  fold_left (fun acc k => acc + days_in_month y (Z.of_nat k))
            (seq 1 (Z.to_nat (m - 1))) 0.

Definition ymd2ord (y m d : Z) : Z :=
  days_before_year y + days_before_month y m + d.

Definition ord2ymd (n : Z) : Z * Z * Z :=
  let n := n - 1 in
  let n400 := n / 146097 in
  let n := n mod 146097 in
  let y := n400 * 400 + 1 in
  let n100 := n / 36524 in
  let n := n mod 36524 in
  let n4 := n / 1461 in
  let n := n mod 1461 in
  let n1 := n / 365 in
  let n := n mod 365 in
  let y := y + n100 * 100 + n4 * 4 + n1 in
  if (n1 =? 4) || (n100 =? 4) then (y - 1, 12, 31)
  else
    let m := Z.shiftr (n + 50) 5 in
    let preceding := days_before_month y m in
    if n <? preceding
    then (y, m - 1, n - (preceding - days_in_month y (m - 1)) + 1)
    else (y, m, n - preceding + 1).

Definition to_micro (d : datetime) : Z :=
  (((ymd2ord (year d) (month d) (day d) * 24 + hour d) * 60 + minute d) * 60
   + second d) * 1000000 + microsecond d.

Definition of_micro (t : Z) : datetime :=
  let r := t mod 86400000000 in
  let '(y, m, d) := ord2ymd (t / 86400000000) in
  mk_datetime y m d (r / 3600000000) (r / 60000000 mod 60)
              (r / 1000000 mod 60) (r mod 1000000).

(** The ranges of the fields of a [datetime] object. *)
Definition datetime_ok (d : datetime) : bool :=
  (1 <=? year d) && (year d <=? 9999) &&
  (1 <=? month d) && (month d <=? 12) &&
  (1 <=? day d) && (day d <=? days_in_month (year d) (month d)) &&
  (0 <=? hour d) && (hour d <=? 23) &&
  (0 <=? minute d) && (minute d <=? 59) &&
  (0 <=? second d) && (second d <=? 59) &&
  (0 <=? microsecond d) && (microsecond d <=? 999999).

Definition add_datetime_timedelta (d : datetime) (delta : timedelta)
    (factor : Z) : result datetime :=
  let t := to_micro d + factor * timedelta_micro delta in
  let ord := t / 86400000000 in
  if (1 <=? ord) && (ord <=? 3652059) then Ok (of_micro t)
  else Raise (OverflowError "date value out of range").

Definition datetime_add (d : datetime) (delta : timedelta) : result datetime :=
  add_datetime_timedelta d delta 1.
Definition datetime_sub (d : datetime) (delta : timedelta) : result datetime :=
  add_datetime_timedelta d delta (-1).

(** ** The client

    The catalog ([GnssAPI]) and the product class ([products.Sentinel]) are
    collaborators of the client: the catalog is a function from a query to
    its answer, and a product is the record of the three attributes the
    client reads.  A call of the client runs on the log of the queries sent
    to the catalog so far and returns it extended. *)

Record S1Product := mk_S1Product {
  start_time : datetime;
  stop_time : datetime;
  mission : string
}.

(** An entry of the catalog's answer; the client reads [identifier]. *)
Record entry := mk_entry {
  identifier : string;
  attributes : list (string * string)
}.

Record query := mk_query {
  producttype : string;
  platformserialidentifier : string;
  date : datetime * datetime
}.

(** [s[1:]] *)
Definition tail_str (s : string) : string :=
  match s with
  | EmptyString => EmptyString
  | String _ s' => s'
  end.

Module ScihubGnssClient.
Definition T0 : timedelta := timedelta_days 1.
Definition T1 : timedelta := timedelta_days 1.

Section Client.
Context (S1Product_of_str : string -> result S1Product)
        (api_query : query -> result (list (string * entry))).

Definition query_orbit (t0 t1 : datetime) (satellite_id : string)
    (product_type : string) (log : list query)
  : result (list (string * entry)) * list query :=
  if negb (String.eqb satellite_id "S1A" || String.eqb satellite_id "S1B")
  then (Raise AssertionError, log)
  else if negb (String.eqb product_type "AUX_POEORB"
                || String.eqb product_type "AUX_RESORB")
  then (Raise AssertionError, log)
  else
    let query_padams :=
      mk_query product_type (tail_str satellite_id) (t0, t1) in
    (api_query query_padams, log ++ [query_padams]).

Definition _select_orbit (products : list (string * entry))
    (t0 t1 : datetime) : result (list (string * entry)) :=
  let orbit_products := map (fun kv => identifier (snd kv)) products in
  let* validity_info := get_validity_info orbit_products in
  let* product_id := lastval_cover t0 t1 validity_info in
  Ok (List.filter (fun kv => String.eqb (identifier (snd kv)) product_id)
                  products).

(** [product] is an identifier or a product object; an argument left
    out is [None]. *)
Definition query_orbit_for_product (product : string + S1Product)
    (product_type : option string)
    (t0_margin t1_margin : option timedelta) (log : list query)
  : result (list (string * entry)) * list query :=
  let product_type := default "AUX_POEORB"%string product_type in
  let t0_margin := default T0 t0_margin in
  let t1_margin := default T1 t1_margin in
  match (match product with
         | inl s => S1Product_of_str s
         | inr p => Ok p
         end) with
  | Raise e => (Raise e, log)
  | Ok product =>
      let t0 := start_time product in
      let t1 := stop_time product in
      match datetime_sub t0 t0_margin with
      | Raise e => (Raise e, log)
      | Ok q0 =>
          match datetime_add t1 t1_margin with
          | Raise e => (Raise e, log)
          | Ok q1 =>
              let '(products, log') :=
                query_orbit q0 q1 (mission product) product_type log in
              (let* products := products in _select_orbit products t0 t1,
               log')
          end
      end
  end.
End Client.
End ScihubGnssClient.

(** ** The script ([__main__])

    The script takes one or more product names ([nargs='+']), asks the
    client for the orbit file of each, gathers the answers in the
    dictionary [query] and, when the dictionary has as many entries as there
    are products, hands it to [download_all].  A dictionary is the list of
    its items in insertion order, with no key twice. *)

(** [d[k] = v] *)
Fixpoint dict_set (d : list (string * entry)) (k : string) (v : entry)
  : list (string * entry) :=
  match d with
  | [] => [(k, v)]
  | (k', v') :: d' =>
      if String.eqb k' k then (k', v) :: d'
      else (k', v') :: dict_set d' k v
  end.

(** [d.update(other)] *)
Definition dict_update (d other : list (string * entry))
  : list (string * entry) :=
  fold_left (fun d kv => dict_set d (fst kv) (snd kv)) other d.

Section Main.
Context (S1Product_of_str : string -> result S1Product)
        (api_query : query -> result (list (string * entry))).

(** The loop of the script, from the dictionary ([query] in the source)
    and the log reached so far. *)
Fixpoint main_loop (products : list string) (query_dict : list (string * entry))
    (log : list query) {struct products}
  : result (list (string * entry)) * list query :=
  match products with
  | [] => (Ok query_dict, log)
  | product :: rest =>
      match ScihubGnssClient.query_orbit_for_product S1Product_of_str api_query
              (inl product) None None None log with
      | (Raise e, log') => (Raise e, log')
      | (Ok selected, log') => main_loop rest (dict_update query_dict selected) log'
      end
  end.

(** The script on the products [product :: products], up to the call of
    [download_all]: the result is the dictionary handed to it. *)
Definition main (product : string) (products : list string)
  : result (list (string * entry)) * list query :=
  match main_loop (product :: products) [] [] with
  | (Raise e, log) => (Raise e, log)
  | (Ok query_dict, log) =>
      if Nat.eqb (List.length query_dict) (List.length (product :: products))
      then (Ok query_dict, log)
      else (Raise AssertionError, log)
  end.
End Main.

(** ** The scenarios of the specification *)

Module Scenario.
(** A datetime to the second. *)
Definition dt (Y m d H M S : Z) : datetime := mk_datetime Y m d H M S 0.

(** Scenario A *)
Definition record_A : ValidityInfo :=
  mk_ValidityInfo "X" (dt 2020 1 2 0 0 0) (dt 2020 1 1 0 0 0) (dt 2020 1 3 0 0 0).

(** Scenario B: two records that cover 2020-06-01 .. 2020-06-02. *)
Definition record_B3 : ValidityInfo :=
  mk_ValidityInfo "B3" (dt 2020 6 3 0 0 0) (dt 2020 5 31 0 0 0) (dt 2020 6 3 0 0 0).
Definition record_B5 : ValidityInfo :=
  mk_ValidityInfo "B5" (dt 2020 6 5 0 0 0) (dt 2020 5 31 0 0 0) (dt 2020 6 3 0 0 0).
(** A second record generated on 2020-06-05. *)
Definition record_B5' : ValidityInfo :=
  mk_ValidityInfo "B5bis" (dt 2020 6 5 0 0 0) (dt 2020 6 1 0 0 0) (dt 2020 6 2 0 0 0).

(** Scenario C: the validity stops one second before [t1]. *)
Definition record_C : ValidityInfo :=
  mk_ValidityInfo "C" (dt 2020 6 3 0 0 0) (dt 2020 6 1 0 0 0) (dt 2020 6 2 0 0 0).

(** Scenario D *)
Definition id_D : string :=
  "S1A_AUX_POEORB_20200101T120000_V20191231T225942_20200102T015942".

(** The identifier of scenario D followed by characters that make the
    block of timestamps occur a second time. *)
Definition id_D_twice : string :=
  "S1A_AUX_POEORB_20200101T120000_V20191231T225942_20200102T015942_V20200103T000000_20200104T000000".

(** An identifier of the right shape with month 13. *)
Definition id_month_13 : string :=
  "S1A_AUX_POEORB_20201301T120000_V20191231T225942_20200102T015942".

Definition id_garbage : string := "garbage".
(** A product of Sentinel-1A acquired on 2020-06-01 from 12:00:00 to
    12:00:25, one of a mission the client does not know, and one
    acquired on the first day of the calendar. *)
Definition product_S1A : S1Product :=
  mk_S1Product (dt 2020 6 1 12 0 0) (dt 2020 6 1 12 0 25) "S1A".
Definition product_S1C : S1Product :=
  mk_S1Product (dt 2020 6 1 12 0 0) (dt 2020 6 1 12 0 25) "S1C".
Definition product_year_1 : S1Product :=
  mk_S1Product (dt 1 1 1 12 0 0) (dt 1 1 1 12 0 25) "S1A".

(** A catalog with one orbit file, and a product class that accepts no
    identifier. *)
Definition catalog (q : query) : result (list (string * entry)) :=
  Ok [("uuid-1"%string,
       mk_entry "S1A_OPER_AUX_POEORB_OPOD_20200621T120000_V20200531T225942_20200602T005942" [])].
Definition no_product (s : string) : result S1Product :=
  Raise (ValueError "not a Sentinel-1 product").
End Scenario.

(** ** A catalog and a product class for the script *)

Module ScriptScenario.
(** Two product names the product class knows, one per satellite, acquired
    on 2020-06-01 around noon. *)
Definition name_A : string := "S1A_IW_20200601T120000".
Definition name_B : string := "S1B_IW_20200601T120010".

Definition product_B : S1Product :=
  mk_S1Product (Scenario.dt 2020 6 1 12 0 10) (Scenario.dt 2020 6 1 12 0 35) "S1B".

Definition product_of_name (s : string) : result S1Product :=
  if String.eqb s name_A then Ok Scenario.product_S1A
  else if String.eqb s name_B then Ok product_B
  else Raise (ValueError "not a Sentinel-1 product").

Definition entry_A : entry :=
  mk_entry "S1A_OPER_AUX_POEORB_OPOD_20200621T120000_V20200531T225942_20200602T005942" [].
Definition entry_B : entry :=
  mk_entry "S1B_OPER_AUX_POEORB_OPOD_20200621T110000_V20200531T225942_20200602T005942" [].

(** The catalog has one orbit file per platform. *)
Definition catalog (q : query) : result (list (string * entry)) :=
  if String.eqb (platformserialidentifier q) "1A"
  then Ok [("uuid-A"%string, entry_A)]
  else Ok [("uuid-B"%string, entry_B)].
End ScriptScenario.

(** *** The pattern read as a splitting of the text

    What each part of the pattern takes from the front of a text and what
    it leaves; the matcher is shown below to compute these. *)

Fixpoint take_class (n : nat) (p : ascii -> bool) (s : list ascii)
  : option (list ascii * list ascii) :=
  match n with
  | O => Some ([], s)
  | S n' =>
      match s with
      | c :: s' =>
          if p c then
            match take_class n' p s' with
            | Some (t, r) => Some (c :: t, r)
            | None => None
            end
          else None
      | [] => None
      end
  end.

Definition expect (c : ascii) (s : list ascii) : option (list ascii) :=
  match s with
  | c' :: s' => if Ascii.eqb c c' then Some s' else None
  | [] => None
  end.

Definition split_timestamp (s : list ascii)
  : option (list ascii * list ascii) :=
  match take_class 8 is_digit s with
  | Some (d, s1) =>
      match expect "T" s1 with
      | Some s2 =>
          match take_class 6 is_digit s2 with
          | Some (t, r) => Some (d ++ "T"%char :: t, r)
          | None => None
          end
      | None => None
      end
  | None => None
  end.

Definition split_validity (s : list ascii)
  : option (list ascii * list ascii * list ascii * list ascii) :=
  match expect "_" s with
  | Some s1 =>
      match split_timestamp s1 with
      | Some (a, s2) =>
          match expect "_" s2 with
          | Some s3 =>
              match expect "V" s3 with
              | Some s4 =>
                  match split_timestamp s4 with
                  | Some (b, s5) =>
                      match expect "_" s5 with
                      | Some s6 =>
                          match split_timestamp s6 with
                          | Some (c, r) => Some (a, b, c, r)
                          | None => None
                          end
                      | None => None
                      end
                  | None => None
                  end
              | None => None
              end
          | None => None
          end
      | None => None
      end
  | None => None
  end.

(** The texts of the shape [\d{8}T\d{6}]. *)
Definition timestamp_shape (ts : list ascii) : Prop :=
  exists d t, ts = d ++ "T"%char :: t /\
    List.length d = 8%nat /\ List.length t = 6%nat /\
    forallb is_digit d = true /\ forallb is_digit t = true.

(** The text of a block of three timestamps [a], [b] and [c]:
    [_a_Vb_c]. *)
Definition block_of (a b c : list ascii) : list ascii :=
  "_"%char :: a ++ "_"%char :: "V"%char :: b ++ "_"%char :: c.

Definition validity_groups (a b c : list ascii) : groups :=
  [("stop_validity"%string, c); ("start_validity"%string, b);
   ("generation_date"%string, a)].

(** * Properties *)

(** ** Order lemmas *)

Lemma tuple_cmp_refl a : tuple_cmp a a = Eq.
Proof. induction a as [|x a IH]; simpl; [reflexivity|]. now rewrite Z.compare_refl. Qed.

Lemma tuple_cmp_eq a : forall b, tuple_cmp a b = Eq -> a = b.
Proof.
  induction a as [|x a IH]; intros [|y b]; simpl; try congruence.
  destruct (x ?= y) eqn:E; try discriminate.
  apply Z.compare_eq in E. intros H. f_equal; auto.
Qed.

Lemma tuple_cmp_antisym a : forall b, tuple_cmp b a = CompOpp (tuple_cmp a b).
Proof.
  induction a as [|x a IH]; intros [|y b]; simpl; try reflexivity.
  rewrite (Z.compare_antisym x y).
  destruct (x ?= y); simpl; auto.
Qed.

Lemma tuple_cmp_lt_trans a : forall b c,
  tuple_cmp a b = Lt -> tuple_cmp b c = Lt -> tuple_cmp a c = Lt.
Proof.
  induction a as [|x a IH]; intros [|y b] [|z c]; simpl; try congruence.
  destruct (x ?= y) eqn:Exy; destruct (y ?= z) eqn:Eyz; try discriminate;
    intros H1 H2.
  - apply Z.compare_eq in Exy, Eyz. subst. rewrite Z.compare_refl. eauto.
  - apply Z.compare_eq in Exy. subst. now rewrite Eyz.
  - apply Z.compare_eq in Eyz. subst. now rewrite Exy.
  - rewrite Z.compare_lt_iff in Exy, Eyz.
    assert (E : (x ?= z) = Lt) by (apply Z.compare_lt_iff; lia).
    now rewrite E.
Qed.

Lemma datetime_cmp_refl x : datetime_cmp x x = Eq.
Proof. apply tuple_cmp_refl. Qed.

Lemma datetime_cmp_eq x y : datetime_cmp x y = Eq -> x = y.
Proof.
  intros H. apply tuple_cmp_eq in H.
  destruct x, y. unfold datetime_tuple in H. simpl in H. congruence.
Qed.

Lemma datetime_cmp_antisym x y : datetime_cmp y x = CompOpp (datetime_cmp x y).
Proof. apply tuple_cmp_antisym. Qed.

(** The comparison of the code computes the chronological order. *)
Lemma datetime_cmp_spec x y :
  match datetime_cmp x y with
  | Lt => dt_lt x y
  | Eq => x = y
  | Gt => dt_lt y x
  end.
Proof.
  destruct x as [y1 m1 d1 h1 n1 s1 u1], y as [y2 m2 d2 h2 n2 s2 u2].
  unfold datetime_cmp, datetime_tuple, dt_lt.
  cbn [tuple_cmp year month day hour minute second microsecond].
  destruct (Z.compare_spec y1 y2); [subst | lia | lia].
  destruct (Z.compare_spec m1 m2); [subst | lia | lia].
  destruct (Z.compare_spec d1 d2); [subst | lia | lia].
  destruct (Z.compare_spec h1 h2); [subst | lia | lia].
  destruct (Z.compare_spec n1 n2); [subst | lia | lia].
  destruct (Z.compare_spec s1 s2); [subst | lia | lia].
  destruct (Z.compare_spec u1 u2); [subst; reflexivity | lia | lia].
Qed.

Lemma dt_lt_irrefl x : ~ dt_lt x x.
Proof. unfold dt_lt. lia. Qed.

Lemma dt_lt_asym x y : dt_lt x y -> ~ dt_lt y x.
Proof. unfold dt_lt. lia. Qed.

Lemma dt_lt_cmp x y : dt_lt x y <-> datetime_cmp x y = Lt.
Proof.
  pose proof (datetime_cmp_spec x y) as H.
  destruct (datetime_cmp x y); split; intros H'; try congruence; try assumption.
  - subst. now apply dt_lt_irrefl in H'.
  - now apply dt_lt_asym in H'.
Qed.

Lemma dt_le_cmp x y : dt_le x y <-> datetime_cmp x y <> Gt.
Proof.
  unfold dt_le. rewrite dt_lt_cmp. split.
  - intros [H | ->]; [congruence | rewrite datetime_cmp_refl; discriminate].
  - destruct (datetime_cmp x y) eqn:E; try congruence; auto.
    right. now apply datetime_cmp_eq.
Qed.

Lemma dt_lt_trans x y z : dt_lt x y -> dt_lt y z -> dt_lt x z.
Proof. rewrite !dt_lt_cmp. apply tuple_cmp_lt_trans. Qed.

Lemma dt_le_refl x : dt_le x x.
Proof. now right. Qed.

Lemma dt_le_total x y : dt_le x y \/ dt_le y x.
Proof.
  rewrite !dt_le_cmp, (datetime_cmp_antisym x y).
  destruct (datetime_cmp x y); simpl; auto; left; discriminate.
Qed.

Lemma dt_le_antisym x y : dt_le x y -> dt_le y x -> x = y.
Proof.
  intros [H1 | ->] [H2 | H2]; auto.
  now apply dt_lt_asym in H1.
Qed.

Lemma dt_le_lt_or_eq x y : dt_le x y <-> dt_lt x y \/ x = y.
Proof. reflexivity. Qed.

Lemma dt_le_trans x y z : dt_le x y -> dt_le y z -> dt_le x z.
Proof.
  intros [H1 | ->] [H2 | ->].
  - left. eapply dt_lt_trans; eauto.
  - now left.
  - now left.
  - now right.
Qed.

Lemma dt_lt_not_le x y : dt_lt x y <-> ~ dt_le y x.
Proof.
  rewrite dt_lt_cmp, dt_le_cmp, (datetime_cmp_antisym x y).
  destruct (datetime_cmp x y); simpl; split; try congruence;
    intros H; exfalso; apply H; discriminate.
Qed.

Lemma dt_leb_spec x y : dt_leb x y = true <-> dt_le x y.
Proof.
  rewrite dt_le_cmp. unfold dt_leb.
  destruct (datetime_cmp x y); split; congruence.
Qed.

Lemma dt_geb_spec x y : dt_geb x y = true <-> dt_le y x.
Proof.
  rewrite dt_le_cmp. unfold dt_geb. rewrite (datetime_cmp_antisym x y).
  destruct (datetime_cmp x y); simpl; split; congruence.
Qed.

Lemma dt_ltb_spec x y : dt_ltb x y = true <-> dt_lt x y.
Proof.
  rewrite dt_lt_cmp. unfold dt_ltb.
  destruct (datetime_cmp x y); split; congruence.
Qed.

(** ** The stable sort *)

Section SortFacts.
Context {A K : Type} (key : A -> K) (ltb : K -> K -> bool).

Lemma insert_stable_perm x l :
  Permutation (insert_stable key ltb x l) (x :: l).
Proof.
  induction l as [|y l IH]; simpl; [reflexivity|].
  destruct (ltb (key y) (key x)); [|reflexivity].
  rewrite IH. apply perm_swap.
Qed.

Lemma sort_stable_perm l : Permutation (sort_stable key ltb l) l.
Proof.
  induction l as [|x l IH]; simpl; [reflexivity|].
  rewrite insert_stable_perm. now constructor.
Qed.

Lemma list_sort_perm b l : Permutation (list_sort key ltb b l) l.
Proof.
  unfold list_sort. destruct b; [|apply sort_stable_perm].
  rewrite <- Permutation_rev, sort_stable_perm. symmetry. apply Permutation_rev.
Qed.

(** Where the inserted element ends up decides the last element. *)
Lemma last_insert_stable x l d :
  List.last (insert_stable key ltb x l) d =
  if forallb (fun y => ltb (key y) (key x)) l then x else List.last l d.
Proof.
  induction l as [|y l IH]; [reflexivity|].
  cbn [insert_stable forallb].
  destruct (ltb (key y) (key x)) eqn:E; cbn [andb]; [|reflexivity].
  destruct (insert_stable key ltb x l) as [|z l'] eqn:Ei.
  { destruct l as [|y' l0]; simpl in Ei; [|destruct (ltb (key y') (key x))];
      discriminate Ei. }
  change (List.last (y :: z :: l') d) with (List.last (z :: l') d). rewrite IH.
  destruct (forallb _ l) eqn:Ef; [reflexivity|].
  destruct l; [discriminate | reflexivity].
Qed.

(** The forward sort ends with the last of the elements of greatest key. *)
Lemma last_sort_stable pre r post d :
  (forall x, In x pre -> ltb (key r) (key x) = false) ->
  (forall x, In x post -> ltb (key x) (key r) = true) ->
  List.last (sort_stable key ltb (pre ++ r :: post)) d = r.
Proof.
  intros Hpre Hpost. induction pre as [|x pre IH].
  - cbn [app sort_stable fold_right]. rewrite last_insert_stable.
    fold (sort_stable key ltb post).
    replace (forallb _ _) with true; [reflexivity|].
    symmetry. apply forallb_forall. intros y Hy. apply Hpost.
    eapply Permutation_in; [apply sort_stable_perm | exact Hy].
  - cbn [app sort_stable fold_right]. rewrite last_insert_stable.
    fold (sort_stable key ltb (pre ++ r :: post)).
    replace (forallb _ _) with false.
    + apply IH. intros y Hy. apply Hpre. now right.
    + symmetry. apply not_true_is_false. intros Hall.
      rewrite forallb_forall in Hall.
      specialize (Hall r). rewrite (Hpre x) in Hall by now left.
      discriminate Hall.
      eapply Permutation_in; [symmetry; apply sort_stable_perm |].
      apply in_elt.
  Qed.

Lemma hd_rev_last (l : list A) d : hd d (rev l) = List.last l d.
Proof.
  induction l as [|x l IH] using rev_ind; [reflexivity|].
  rewrite rev_unit, last_last. reflexivity.
Qed.

(** The reversed sort starts with the first of the elements of greatest
    key. *)
Lemma hd_list_sort_reverse pre r post d :
  (forall x, In x pre -> ltb (key x) (key r) = true) ->
  (forall x, In x post -> ltb (key r) (key x) = false) ->
  hd d (list_sort key ltb true (pre ++ r :: post)) = r.
Proof.
  intros Hpre Hpost. unfold list_sort. rewrite hd_rev_last.
  rewrite rev_app_distr. cbn [rev]. rewrite <- app_assoc. cbn [app].
  apply last_sort_stable; intros x Hx; apply in_rev in Hx; auto.
Qed.
End SortFacts.

(** The order the selector sorts in: by generation date, latest first. *)
Lemma insert_stable_sorted x (l : list ValidityInfo) :
  StronglySorted (fun a b => dt_le (generation_date a) (generation_date b)) l ->
  StronglySorted (fun a b => dt_le (generation_date a) (generation_date b))
    (insert_stable generation_date dt_ltb x l).
Proof.
  induction 1 as [|y l Hs IH Hy]; cbn [insert_stable].
  - repeat constructor.
  - destruct (dt_ltb (generation_date y) (generation_date x)) eqn:E.
    + constructor; [assumption|].
      eapply Permutation_Forall;
        [symmetry; apply (insert_stable_perm generation_date dt_ltb)|].
      constructor; [|assumption].
      apply dt_le_lt_or_eq. left. now apply dt_ltb_spec.
    + assert (Hxy : dt_le (generation_date x) (generation_date y)).
      { destruct (dt_le_total (generation_date x) (generation_date y)) as [H|H];
          [assumption|].
        apply dt_le_lt_or_eq in H as [H | H]; [|rewrite H; apply dt_le_refl].
        apply dt_ltb_spec in H. congruence. }
      constructor; [now constructor|].
      constructor; [assumption|].
      eapply Forall_impl; [|exact Hy].
      intros z Hz. eapply dt_le_trans; eauto.
Qed.

Lemma sort_stable_sorted (l : list ValidityInfo) :
  StronglySorted (fun a b => dt_le (generation_date a) (generation_date b))
    (sort_stable generation_date dt_ltb l).
Proof.
  induction l as [|x l IH]; [constructor|].
  cbn [sort_stable fold_right]. now apply insert_stable_sorted.
Qed.

Lemma StronglySorted_rev {A} (R : A -> A -> Prop) (l : list A) :
  StronglySorted R l -> StronglySorted (fun a b => R b a) (rev l).
Proof.
  induction 1 as [|x l Hs IH Hx]; [constructor|].
  cbn [rev].
  assert (G : forall l1, StronglySorted (fun a b => R b a) l1 ->
                         Forall (fun a => R x a) l1 ->
                         StronglySorted (fun a b => R b a) (l1 ++ [x])).
  { induction 1 as [|y l1 Hs1 IH1 Hy]; intros Hall; cbn [app].
    - repeat constructor.
    - inversion Hall as [|? ? Hxy Hall']; subst.
      constructor; [now apply IH1|].
      apply Forall_app. split; [assumption | now constructor]. }
  apply G; [assumption|].
  apply Forall_forall. intros z Hz. apply in_rev in Hz.
  rewrite List.Forall_forall in Hx. now apply Hx.
Qed.

Lemma list_sort_reverse_sorted (l : list ValidityInfo) :
  StronglySorted (fun a b => dt_le (generation_date b) (generation_date a))
    (list_sort generation_date dt_ltb true l).
Proof. unfold list_sort. apply StronglySorted_rev, sort_stable_sorted. Qed.

(** ** The coverage selector *)

Lemma covers_spec t0 t1 r : covers t0 t1 r = true <-> Covers t0 t1 r.
Proof.
  unfold covers, Covers. rewrite andb_true_iff, dt_leb_spec, dt_geb_spec.
  reflexivity.
Qed.

Lemma candidates_of_In t0 t1 data r :
  In r (candidates_of t0 t1 data) <-> In r data /\ Covers t0 t1 r.
Proof. unfold candidates_of. now rewrite filter_In, covers_spec. Qed.

(** The selector returns the first of the covering records of latest
    generation date. *)
Lemma lastval_cover_first_latest t0 t1 pre r post :
  Covers t0 t1 r ->
  (forall x, In x pre -> Covers t0 t1 x ->
             dt_lt (generation_date x) (generation_date r)) ->
  (forall x, In x post -> Covers t0 t1 x ->
             dt_le (generation_date x) (generation_date r)) ->
  lastval_cover t0 t1 (pre ++ r :: post) = Ok (product_id r).
Proof.
  intros Hr Hpre Hpost. unfold lastval_cover.
  assert (Hc : candidates_of t0 t1 (pre ++ r :: post) =
               candidates_of t0 t1 pre ++ r :: candidates_of t0 t1 post).
  { unfold candidates_of. rewrite List.filter_app. cbn [List.filter].
    apply covers_spec in Hr. now rewrite Hr. }
  rewrite Hc.
  destruct (candidates_of t0 t1 pre ++ r :: candidates_of t0 t1 post) eqn:E;
    [destruct (candidates_of t0 t1 pre); discriminate E|].
  rewrite <- E. clear E.
  pose proof (hd_list_sort_reverse generation_date dt_ltb
                (candidates_of t0 t1 pre) r (candidates_of t0 t1 post) r) as Hhd.
  pose proof (list_sort_perm generation_date dt_ltb true
                (candidates_of t0 t1 pre ++ r :: candidates_of t0 t1 post)) as Hp.
  destruct (list_sort generation_date dt_ltb true _) as [|c cs].
  - apply Permutation_nil in Hp. destruct (candidates_of t0 t1 pre); discriminate Hp.
  - cbn [hd] in Hhd. rewrite Hhd; [reflexivity | |].
    + intros x Hx. apply candidates_of_In in Hx as [Hx Hcx].
      apply dt_ltb_spec. auto.
    + intros x Hx. apply candidates_of_In in Hx as [Hx Hcx].
      apply not_true_is_false. rewrite dt_ltb_spec, dt_lt_not_le.
      intros H. apply H. auto.
Qed.

(** The selector on one record. *)
Lemma lastval_cover_single t0 t1 R :
  lastval_cover t0 t1 [R] =
  if covers t0 t1 R then Ok (product_id R)
  else Raise (ValidityError (no_cover_msg t0 t1)).
Proof.
  unfold lastval_cover, candidates_of. cbn [List.filter].
  destruct (covers t0 t1 R); reflexivity.
Qed.

(** A record that does not cover has no part in the selection. *)
Lemma lastval_cover_skip t0 t1 pre R post :
  ~ Covers t0 t1 R ->
  lastval_cover t0 t1 (pre ++ R :: post) = lastval_cover t0 t1 (pre ++ post).
Proof.
  intros H.
  assert (E : candidates_of t0 t1 (pre ++ R :: post) =
              candidates_of t0 t1 (pre ++ post)).
  { unfold candidates_of. rewrite !List.filter_app. cbn [List.filter].
    destruct (covers t0 t1 R) eqn:Ec; [|reflexivity].
    apply covers_spec in Ec. contradiction. }
  unfold lastval_cover. now rewrite E.
Qed.

(** C1. The selector keeps a record as a candidate exactly when its validity
    starts at or before [t0] and stops at or after [t1]: such a record is in
    the list of the comprehension, it is what the selector returns when it
    stands alone or when the other covering records are generated before
    it, and equal bounds count as covering; a record that starts after [t0]
    or stops before [t1] is left out, so that alone it makes the selector
    raise and among others it changes nothing. *)
Theorem lastval_cover_candidates_containment :
  forall (t0 t1 : datetime) (data : list ValidityInfo) (R : ValidityInfo),
    (In R (candidates_of t0 t1 data) <->
       In R data /\ dt_le (start_validity R) t0 /\ dt_le t1 (stop_validity R))
    /\ (lastval_cover t0 t1 [R] = Ok (product_id R) <->
        dt_le (start_validity R) t0 /\ dt_le t1 (stop_validity R))
    /\ (forall pre post,
          dt_le (start_validity R) t0 /\ dt_le t1 (stop_validity R) ->
          (forall x, In x (pre ++ post) ->
                     dt_le (start_validity x) t0 /\ dt_le t1 (stop_validity x) ->
                     dt_lt (generation_date x) (generation_date R)) ->
          lastval_cover t0 t1 (pre ++ R :: post) = Ok (product_id R))
    /\ (start_validity R = t0 -> stop_validity R = t1 ->
        lastval_cover t0 t1 [R] = Ok (product_id R))
    /\ (dt_lt t0 (start_validity R) \/ dt_lt (stop_validity R) t1 ->
        ~ In R (candidates_of t0 t1 data)
        /\ lastval_cover t0 t1 [R] = Raise (ValidityError (no_cover_msg t0 t1))
        /\ forall pre post,
             lastval_cover t0 t1 (pre ++ R :: post) =
             lastval_cover t0 t1 (pre ++ post)).
Proof.
  intros t0 t1 data R.
  assert (Hsingle : lastval_cover t0 t1 [R] = Ok (product_id R) <->
                    Covers t0 t1 R).
  { rewrite lastval_cover_single, <- covers_spec.
    destruct (covers t0 t1 R); split; congruence. }
  split; [|split; [|split; [|split]]].
  - rewrite candidates_of_In. unfold Covers. reflexivity.
  - exact Hsingle.
  - intros pre post Hc Hothers. apply lastval_cover_first_latest.
    + exact Hc.
    + intros x Hx Hcx. apply Hothers; [apply in_or_app; now left | exact Hcx].
    + intros x Hx Hcx. left.
      apply Hothers; [apply in_or_app; now right | exact Hcx].
  - intros <- <-. apply Hsingle. split; apply dt_le_refl.
  - intros Hlt.
    assert (Hn : ~ Covers t0 t1 R).
    { intros [H0 H1]. destruct Hlt as [Hlt | Hlt];
        apply dt_lt_not_le in Hlt; contradiction. }
    split; [|split].
    + intros Hin. apply candidates_of_In in Hin as [_ Hc]. contradiction.
    + rewrite lastval_cover_single.
      destruct (covers t0 t1 R) eqn:Ec; [|reflexivity].
      apply covers_spec in Ec. contradiction.
    + intros pre post. now apply lastval_cover_skip.
Qed.

(** C10. When several covering records share the latest generation date,
    the selector returns the identifier of the one that comes first in the
    input. *)
Theorem lastval_cover_tie_earliest :
  forall (t0 t1 : datetime) (pre post : list ValidityInfo) (r : ValidityInfo),
    Covers t0 t1 r ->
    (forall x, In x (pre ++ r :: post) -> Covers t0 t1 x ->
               dt_le (generation_date x) (generation_date r)) ->
    (forall x, In x pre -> Covers t0 t1 x ->
               generation_date x <> generation_date r) ->
    lastval_cover t0 t1 (pre ++ r :: post) = Ok (product_id r).
Proof.
  intros t0 t1 pre post r Hr Hmax Hfirst.
  apply lastval_cover_first_latest; [assumption | |].
  - intros x Hx Hc.
    assert (Hle : dt_le (generation_date x) (generation_date r))
      by (apply Hmax; [apply in_or_app; now left | assumption]).
    apply dt_le_lt_or_eq in Hle as [Hlt | Heq]; [assumption|].
    now apply Hfirst in Heq.
  - intros x Hx Hc. apply Hmax; [|assumption].
    apply in_or_app. right. now right.
Qed.

(** C3. When no record covers the interval, the empty input included, the
    selector raises [ValidityError] with a message that prints [t0] and
    [t1], and returns no identifier. *)
Theorem lastval_cover_no_cover_raises :
  forall (t0 t1 : datetime) (data : list ValidityInfo),
    Forall (fun r => ~ Covers t0 t1 r) data ->
    lastval_cover t0 t1 data = Raise (ValidityError (no_cover_msg t0 t1))
    /\ (exists a b c,
          no_cover_msg t0 t1 =
          (a ++ datetime_str t0 ++ b ++ datetime_str t1 ++ c)%string)
    /\ (forall id, lastval_cover t0 t1 data <> Ok id)
    /\ type_of (ValidityError (no_cover_msg t0 t1)) = TValidityError.
Proof.
  intros t0 t1 data Hnone.
  assert (E : candidates_of t0 t1 data = []).
  { destruct (candidates_of t0 t1 data) as [|c cs] eqn:E; [reflexivity|].
    assert (Hin : In c (candidates_of t0 t1 data)) by (rewrite E; now left).
    apply candidates_of_In in Hin as [Hin Hc].
    rewrite List.Forall_forall in Hnone. now apply Hnone in Hin. }
  assert (R : lastval_cover t0 t1 data = Raise (ValidityError (no_cover_msg t0 t1)))
    by (unfold lastval_cover; now rewrite E).
  split; [exact R|]. split; [|split; [|reflexivity]].
  - exists ("none of the input products completely covers the requested " ++
            "time interval: [t0=")%string, ", t1="%string, "]"%string.
    reflexivity.
  - intros id. rewrite R. discriminate.
Qed.

Lemma candidates_of_perm t0 t1 l l' :
  Permutation l l' ->
  Permutation (candidates_of t0 t1 l) (candidates_of t0 t1 l').
Proof.
  unfold candidates_of. induction 1 as [|x l l' _ IH|x y l|l l' l'' _ IH1 _ IH2].
  - constructor.
  - cbn [List.filter]. destruct (covers t0 t1 x); [now constructor | assumption].
  - cbn [List.filter]. destruct (covers t0 t1 x), (covers t0 t1 y);
      try reflexivity. apply perm_swap.
  - now transitivity (List.filter (covers t0 t1) l').
Qed.

Lemma latest_exists (l : list ValidityInfo) :
  l <> [] ->
  exists r, In r l /\
    forall x, In x l -> dt_le (generation_date x) (generation_date r).
Proof.
  induction l as [|a l IH]; [congruence|]. intros _.
  destruct l as [|b l].
  - exists a. split; [now left|]. intros x [<-|[]]. apply dt_le_refl.
  - destruct IH as [r [Hr Hmax]]; [discriminate|].
    destruct (dt_le_total (generation_date a) (generation_date r)) as [H|H].
    + exists r. split; [now right|]. intros x [<-|Hx]; auto.
    + exists a. split; [now left|]. intros x [<-|Hx]; [apply dt_le_refl|].
      eapply dt_le_trans; [apply Hmax, Hx | exact H].
Qed.

(** With distinct generation dates, the covering record of latest
    generation date is the one returned. *)
Lemma lastval_cover_unique_latest t0 t1 data r :
  NoDup (map generation_date (candidates_of t0 t1 data)) ->
  In r (candidates_of t0 t1 data) ->
  (forall x, In x (candidates_of t0 t1 data) ->
             dt_le (generation_date x) (generation_date r)) ->
  lastval_cover t0 t1 data = Ok (product_id r).
Proof.
  intros Hnd Hr Hmax.
  apply candidates_of_In in Hr as [Hin Hc].
  apply in_split in Hin as [pre [post ->]].
  assert (E : candidates_of t0 t1 (pre ++ r :: post) =
              candidates_of t0 t1 pre ++ r :: candidates_of t0 t1 post).
  { unfold candidates_of. rewrite List.filter_app. cbn [List.filter].
    apply covers_spec in Hc. now rewrite Hc. }
  apply lastval_cover_first_latest; [assumption | |].
  - intros x Hx Hcx.
    assert (Hxc : In x (candidates_of t0 t1 pre)) by now apply candidates_of_In.
    assert (Hle : dt_le (generation_date x) (generation_date r)).
    { apply Hmax. rewrite E. apply in_or_app. now left. }
    apply dt_le_lt_or_eq in Hle as [Hlt | Heq]; [assumption|].
    exfalso. rewrite E, map_app in Hnd. cbn [map] in Hnd.
    apply NoDup_remove_2 in Hnd. apply Hnd. apply in_or_app. left.
    rewrite <- Heq. now apply in_map.
  - intros x Hx Hcx. apply Hmax. apply candidates_of_In. split; [|assumption].
    apply in_or_app. right. now right.
Qed.

(** C2. When at least two records cover the interval and the covering
    records have pairwise distinct generation dates, the selector returns
    the identifier of the covering record of latest generation date, in
    whatever order the records are given. *)
Theorem lastval_cover_latest_generation :
  forall (t0 t1 : datetime) (data : list ValidityInfo),
    (2 <= List.length (candidates_of t0 t1 data))%nat ->
    NoDup (map generation_date (candidates_of t0 t1 data)) ->
    exists r,
      In r data /\ Covers t0 t1 r
      /\ (forall x, In x data -> Covers t0 t1 x ->
                    dt_le (generation_date x) (generation_date r))
      /\ lastval_cover t0 t1 data = Ok (product_id r)
      /\ (forall data', Permutation data data' ->
                        lastval_cover t0 t1 data' = Ok (product_id r)).
Proof.
  intros t0 t1 data Hlen Hnd.
  destruct (latest_exists (candidates_of t0 t1 data)) as [r [Hr Hmax]].
  { intros E. rewrite E in Hlen. simpl in Hlen. lia. }
  exists r.
  pose proof Hr as Hr'. apply candidates_of_In in Hr' as [Hin Hc].
  split; [assumption|]. split; [assumption|]. split; [|split].
  - intros x Hx Hcx. apply Hmax. now apply candidates_of_In.
  - now apply lastval_cover_unique_latest.
  - intros data' Hp. apply (candidates_of_perm t0 t1) in Hp.
    apply lastval_cover_unique_latest.
    + eapply Permutation_NoDup; [apply Permutation_map, Hp | exact Hnd].
    + eapply Permutation_in; [exact Hp | exact Hr].
    + intros x Hx. apply Hmax. eapply Permutation_in; [symmetry; exact Hp | exact Hx].
Qed.

(** ** The selector on the store *)

Lemma alloc_fresh v (h : gmap nat (list ValidityInfo)) :
  h !! fst (alloc v h) = None.
Proof. unfold alloc. cbn [fst]. apply not_elem_of_dom, is_fresh. Qed.

(** C8. Running the selector on a store leaves the caller's list, and every
    other object that existed before the call, as it was: the sort works on
    the list the comprehension has built.  The outcome is the one of the
    pure function on the contents of the input list, so it depends on the
    arguments only. *)
Theorem lastval_cover_store_frame :
  forall (t0 t1 : datetime) (data : nat) (h : gmap nat (list ValidityInfo))
         (items : list ValidityInfo),
    h !! data = Some items ->
    exists h',
      lastval_cover_store t0 t1 data h = Some (lastval_cover t0 t1 items, h')
      /\ h' !! data = Some items
      /\ (forall l v, h !! l = Some v -> h' !! l = Some v).
Proof.
  intros t0 t1 data h items Hdata.
  unfold lastval_cover_store, lastval_cover, candidates_of. rewrite Hdata.
  pose proof (alloc_fresh (List.filter (covers t0 t1) items) h) as Hfresh.
  unfold alloc in *. cbn [fst] in Hfresh.
  set (c := fresh (dom h)) in *.
  rewrite lookup_insert_eq.
  assert (Hother : forall l v, h !! l = Some v -> l <> c) by (intros l v Hl ->; congruence).
  destruct (List.filter (covers t0 t1) items) as [|c0 cs] eqn:Ef.
  - eexists. split; [reflexivity|]. split.
    + rewrite lookup_insert_ne; [assumption|]. intros E. now apply (Hother data items).
    + intros l v Hl. rewrite lookup_insert_ne; [assumption|].
      intros E. now apply (Hother l v).
  - rewrite lookup_insert_eq.
    destruct (list_sort generation_date dt_ltb true (c0 :: cs)) as [|s ss];
      (eexists; split; [reflexivity|]; split;
       [ rewrite !lookup_insert_ne; [assumption | | ];
           intros E; now apply (Hother data items)
       | intros l v Hl; rewrite !lookup_insert_ne; [assumption | | ];
           intros E; now apply (Hother l v) ]).
Qed.

(** ** The matcher *)

Section Star.
Context {R : Type} (p : ascii -> bool) (k : list ascii -> option R).

Lemma star_k_none v :
  (forall i, forallb p (firstn i v) = true -> k (skipn i v) = None) ->
  star_k p k v = None.
Proof.
  induction v as [|c v IH]; intros H.
  - exact (H O eq_refl).
  - cbn [star_k]. destruct (p c) eqn:Ec; [|exact (H O eq_refl)].
    rewrite IH; [exact (H O eq_refl)|].
    intros i Hi. apply (H (S i)). cbn [firstn forallb]. now rewrite Ec.
Qed.

(** When what follows fails wherever the quantifier could stop later, the
    quantifier takes nothing. *)
Lemma star_k_last v :
  (forall i, (0 < i)%nat -> forallb p (firstn i v) = true ->
             k (skipn i v) = None) ->
  star_k p k v = k v.
Proof.
  destruct v as [|c v]; intros H; [reflexivity|].
  cbn [star_k]. destruct (p c) eqn:Ec; [|reflexivity].
  rewrite star_k_none; [reflexivity|].
  intros i Hi. apply (H (S i)); [lia|]. cbn [firstn forallb]. now rewrite Ec.
Qed.

Lemma star_k_prefix u v r :
  forallb p u = true -> star_k p k v = Some r ->
  star_k p k (u ++ v) = Some r.
Proof.
  intros Hu Hv. induction u as [|c u IH]; [assumption|].
  cbn [forallb] in Hu. apply andb_true_iff in Hu as [Hc Hu].
  cbn [app star_k]. rewrite Hc, (IH Hu). reflexivity.
Qed.

Lemma star_k_some_inv s r :
  star_k p k s = Some r ->
  exists u v, s = u ++ v /\ forallb p u = true /\ k v = Some r.
Proof.
  induction s as [|c s IH]; cbn [star_k]; intros H.
  - now exists [], [].
  - destruct (p c) eqn:Ec; [|now exists [], (c :: s)].
    destruct (star_k p k s) as [r'|] eqn:Es; [|now exists [], (c :: s)].
    destruct (IH H) as [u [v [-> [Hu Hv]]]].
    exists (c :: u), v. cbn [forallb]. now rewrite Ec, Hu.
Qed.
End Star.

Lemma star_k_const {R} p (r : R) s : star_k p (fun _ => Some r) s = Some r.
Proof.
  induction s as [|c s IH]; [reflexivity|].
  cbn [star_k]. rewrite IH. now destruct (p c).
Qed.

Lemma take_class_some n p : forall s t r,
  take_class n p s = Some (t, r) ->
  s = t ++ r /\ List.length t = n /\ forallb p t = true.
Proof.
  induction n as [|n IH]; intros s t r H; cbn [take_class] in H.
  - injection H as <- <-. auto.
  - destruct s as [|c s]; [discriminate|].
    destruct (p c) eqn:Ec; [|discriminate].
    destruct (take_class n p s) as [[t' r']|] eqn:E; [|discriminate].
    injection H as <- <-. apply IH in E as [-> [<- Hp]].
    cbn [forallb]. now rewrite Ec, Hp.
Qed.

Lemma take_class_app n p : forall t r,
  List.length t = n -> forallb p t = true ->
  take_class n p (t ++ r) = Some (t, r).
Proof.
  induction n as [|n IH]; intros [|c t] r Hl Hp; try discriminate Hl.
  - reflexivity.
  - cbn [forallb] in Hp. apply andb_true_iff in Hp as [Hc Hp].
    injection Hl as Hl.
    cbn [app take_class]. now rewrite Hc, (IH t r Hl Hp).
Qed.

Section Matcher.
Context {R : Type}.
Implicit Types (k : list ascii -> groups -> option R).

Lemma rmatch_chr c s g k :
  rmatch (Chr c) s g k =
  match expect c s with Some s' => k s' g | None => None end.
Proof.
  destruct s as [|c' s]; [reflexivity|].
  cbn [rmatch expect]. now destruct (Ascii.eqb c c').
Qed.

Lemma rep_k_cls p n : forall s g k,
  rep_k (rmatch (Cls p)) n s g k =
  match take_class n p s with Some (_, r) => k r g | None => None end.
Proof.
  induction n as [|n IH]; intros s g k; [reflexivity|].
  cbn [rep_k rmatch take_class].
  destruct s as [|c s]; [reflexivity|].
  destruct (p c); [|reflexivity].
  rewrite IH. now destruct (take_class n p s) as [[t r]|].
Qed.

Lemma rmatch_cat r1 r2 s g k :
  rmatch (Cat r1 r2) s g k = rmatch r1 s g (fun s' g' => rmatch r2 s' g' k).
Proof. reflexivity. Qed.

Lemma rmatch_rep n r s g k :
  rmatch (Rep n r) s g k = rep_k (rmatch r) n s g k.
Proof. reflexivity. Qed.

Lemma rmatch_timestamp s g k :
  rmatch timestamp_re s g k =
  match split_timestamp s with Some (_, r) => k r g | None => None end.
Proof.
  unfold timestamp_re, split_timestamp.
  rewrite rmatch_cat, rmatch_rep, rep_k_cls.
  destruct (take_class 8 is_digit s) as [[d s1]|]; [|reflexivity].
  rewrite rmatch_cat, rmatch_chr.
  destruct (expect "T" s1) as [s2|]; [|reflexivity].
  rewrite rmatch_rep, rep_k_cls.
  now destruct (take_class 6 is_digit s2) as [[t r]|].
Qed.
End Matcher.

Lemma expect_some c s s' : expect c s = Some s' <-> s = c :: s'.
Proof.
  destruct s as [|c' s]; cbn [expect]; [split; discriminate|].
  destruct (Ascii.eqb c c') eqn:E.
  - apply Ascii.eqb_eq in E as <-. split; congruence.
  - apply Ascii.eqb_neq in E. split; [discriminate | congruence].
Qed.

Lemma split_timestamp_some s ts r :
  split_timestamp s = Some (ts, r) -> s = ts ++ r /\ timestamp_shape ts.
Proof.
  unfold split_timestamp. intros H.
  destruct (take_class 8 is_digit s) as [[d s1]|] eqn:E1; [|discriminate].
  destruct (expect "T" s1) as [s2|] eqn:E2; [|discriminate].
  destruct (take_class 6 is_digit s2) as [[t r']|] eqn:E3; [|discriminate].
  injection H as <- <-.
  apply take_class_some in E1 as [-> [Hd1 Hd2]].
  apply expect_some in E2 as ->.
  apply take_class_some in E3 as [-> [Ht1 Ht2]].
  split; [now rewrite <- app_assoc | now exists d, t].
Qed.

Lemma split_timestamp_app ts r :
  timestamp_shape ts -> split_timestamp (ts ++ r) = Some (ts, r).
Proof.
  intros [d [t [-> [Hd1 [Ht1 [Hd2 Ht2]]]]]]. unfold split_timestamp.
  rewrite <- app_assoc. rewrite (take_class_app 8 is_digit d _ Hd1 Hd2).
  cbn [app expect]. rewrite Ascii.eqb_refl.
  now rewrite (take_class_app 6 is_digit t r Ht1 Ht2).
Qed.

Lemma firstn_taken (ts r : list ascii) :
  firstn (List.length (ts ++ r) - List.length r) (ts ++ r) = ts.
Proof.
  rewrite length_app, Nat.add_sub, firstn_app, Nat.sub_diag, firstn_all.
  cbn [firstn]. apply app_nil_r.
Qed.

Section MatcherGroups.
Context {R : Type}.
Implicit Types (k : list ascii -> groups -> option R).

Lemma rmatch_grp_timestamp name s g k :
  rmatch (Grp name timestamp_re) s g k =
  match split_timestamp s with
  | Some (ts, r) => k r ((name, ts) :: g)
  | None => None
  end.
Proof.
  cbn [rmatch]. rewrite rmatch_timestamp.
  destruct (split_timestamp s) as [[ts r]|] eqn:E; [|reflexivity].
  apply split_timestamp_some in E as [-> _]. now rewrite firstn_taken.
Qed.

Lemma rmatch_validity s g k :
  rmatch validity_re s g k =
  match split_validity s with
  | Some (a, b, c, r) =>
      star_k is_word (fun s' => k s' (validity_groups a b c ++ g)) r
  | None => None
  end.
Proof.
  unfold validity_re, split_validity.
  rewrite rmatch_cat, rmatch_chr.
  destruct (expect "_" s) as [s1|]; [|reflexivity].
  rewrite rmatch_cat, rmatch_grp_timestamp.
  destruct (split_timestamp s1) as [[a s2]|]; [|reflexivity].
  rewrite rmatch_cat, rmatch_chr.
  destruct (expect "_" s2) as [s3|]; [|reflexivity].
  rewrite rmatch_cat, rmatch_chr.
  destruct (expect "V" s3) as [s4|]; [|reflexivity].
  rewrite rmatch_cat, rmatch_grp_timestamp.
  destruct (split_timestamp s4) as [[b s5]|]; [|reflexivity].
  rewrite rmatch_cat, rmatch_chr.
  destruct (expect "_" s5) as [s6|]; [|reflexivity].
  rewrite rmatch_cat, rmatch_grp_timestamp.
  destruct (split_timestamp s6) as [[c r]|]; reflexivity.
Qed.
End MatcherGroups.

(** Where the block of the three timestamps matches, and what it
    captures. *)
Lemma re_match_validity v :
  re_match validity_re v =
  match split_validity v with
  | Some (a, b, c, _) => Some (validity_groups a b c)
  | None => None
  end.
Proof.
  unfold re_match. rewrite rmatch_validity.
  destruct (split_validity v) as [[[[a b] c] r]|]; [|reflexivity].
  apply star_k_const.
Qed.

(** The pattern needs [S1] and a word character, and then looks for the
    block from the farthest position [\w+] can reach backwards. *)
Lemma re_match_default s :
  re_match default_pattern s =
  match s with
  | c1 :: c2 :: c :: s' =>
      if Ascii.eqb "S" c1 && Ascii.eqb "1" c2 && is_word c
      then star_k is_word (re_match validity_re) s'
      else None
  | _ => None
  end.
Proof.
  unfold re_match, default_pattern.
  rewrite rmatch_cat, rmatch_chr.
  destruct s as [|c1 s]; [reflexivity|]. cbn [expect].
  destruct (Ascii.eqb "S" c1); [|now destruct s as [|? [|? ?]]].
  rewrite rmatch_cat, rmatch_chr.
  destruct s as [|c2 s]; [reflexivity|]. cbn [expect].
  destruct (Ascii.eqb "1" c2); [|now destruct s].
  rewrite rmatch_cat. cbn [rmatch andb].
  destruct s as [|c s]; [reflexivity|].
  destruct (is_word c); reflexivity.
Qed.

(** ** Timestamps *)

Lemma digit_char_val n : 0 <= n <= 9 -> digit_val (digit_char n) = n.
Proof.
  intros H. unfold digit_val, digit_char.
  rewrite N_ascii_embedding by lia. lia.
Qed.

Lemma is_digit_digit_char n : 0 <= n <= 9 -> is_digit (digit_char n) = true.
Proof.
  intros H. unfold is_digit, digit_char.
  rewrite N_ascii_embedding by lia.
  apply andb_true_iff. split; apply N.leb_le; lia.
Qed.

Lemma int_of_digits_snoc l c :
  int_of_digits (l ++ [c]) = 10 * int_of_digits l + digit_val c.
Proof. unfold int_of_digits. now rewrite fold_left_app. Qed.

Lemma length_digits w : forall n, List.length (digits w n) = w.
Proof.
  induction w as [|w IH]; intros n; [reflexivity|].
  cbn [digits]. rewrite length_app, IH. cbn. lia.
Qed.

Lemma forallb_digits w : forall n, forallb is_digit (digits w n) = true.
Proof.
  induction w as [|w IH]; intros n; [reflexivity|].
  cbn [digits]. rewrite forallb_app, IH. cbn [forallb andb].
  rewrite is_digit_digit_char; [reflexivity|].
  pose proof (Z.mod_pos_bound n 10). lia.
Qed.

Lemma int_of_digits_digits w : forall n,
  int_of_digits (digits w n) = n mod 10 ^ Z.of_nat w.
Proof.
  induction w as [|w IH]; intros n.
  - cbn. now rewrite Z.mod_1_r.
  - cbn [digits]. rewrite int_of_digits_snoc, IH.
    rewrite digit_char_val by (pose proof (Z.mod_pos_bound n 10); lia).
    rewrite Nat2Z.inj_succ, Z.pow_succ_r by lia.
    rewrite (Z.rem_mul_r n 10 (10 ^ Z.of_nat w)) by lia. lia.
Qed.

Lemma int_of_digits_small w n :
  0 <= n < 10 ^ Z.of_nat w -> int_of_digits (digits w n) = n.
Proof. intros H. rewrite int_of_digits_digits. now apply Z.mod_small. Qed.

Lemma days_in_month_le_31 y m : days_in_month y m <= 31.
Proof.
  unfold days_in_month.
  destruct (m =? 2); [destruct (is_leap y); lia|].
  destruct ((m =? 4) || (m =? 6) || (m =? 9) || (m =? 11)); lia.
Qed.

Lemma valid_datetime_bounds d :
  valid_datetime d = true ->
  1 <= year d <= 9999 /\ 1 <= month d <= 12 /\
  1 <= day d <= days_in_month (year d) (month d) /\
  0 <= hour d <= 23 /\ 0 <= minute d <= 59 /\ 0 <= second d <= 59 /\
  microsecond d = 0.
Proof.
  unfold valid_datetime. rewrite !andb_true_iff, !Z.leb_le, Z.eqb_eq. tauto.
Qed.

(** A compact timestamp has the shape the pattern asks for. *)
Lemma compact_shape d : timestamp_shape (compact d).
Proof.
  exists (digits 4 (year d) ++ digits 2 (month d) ++ digits 2 (day d)),
         (digits 2 (hour d) ++ digits 2 (minute d) ++ digits 2 (second d)).
  unfold compact. rewrite <- !app_assoc. split; [reflexivity|].
  rewrite !length_app, !length_digits, !forallb_app, !forallb_digits. auto.
Qed.

Lemma read_fields_compact d :
  valid_datetime d = true -> read_fields (compact d) = Some d.
Proof.
  intros Hv. apply valid_datetime_bounds in Hv as (Hy & Hm & Hd & Hh & Hn & Hs & Hu).
  pose proof (days_in_month_le_31 (year d) (month d)) as Hdim.
  unfold compact. cbn [digits app]. cbn [read_fields forallb].
  rewrite !is_digit_digit_char
    by (match goal with |- 0 <= ?x mod 10 <= 9 =>
          pose proof (Z.mod_pos_bound x 10); lia end).
  cbn [andb]. rewrite Ascii.eqb_refl.
  change [digit_char (year d / 10 / 10 / 10 mod 10);
          digit_char (year d / 10 / 10 mod 10);
          digit_char (year d / 10 mod 10); digit_char (year d mod 10)]
    with (digits 4 (year d)).
  change [digit_char (month d / 10 mod 10); digit_char (month d mod 10)]
    with (digits 2 (month d)).
  change [digit_char (day d / 10 mod 10); digit_char (day d mod 10)]
    with (digits 2 (day d)).
  change [digit_char (hour d / 10 mod 10); digit_char (hour d mod 10)]
    with (digits 2 (hour d)).
  change [digit_char (minute d / 10 mod 10); digit_char (minute d mod 10)]
    with (digits 2 (minute d)).
  change [digit_char (second d / 10 mod 10); digit_char (second d mod 10)]
    with (digits 2 (second d)).
  rewrite !int_of_digits_small by (cbn; lia).
  destruct d; cbn in *; now subst.
Qed.

(** [strptime] accepts the valid timestamps and reads their fields. *)
Lemma strptime_valid ts d :
  read_fields ts = Some d -> valid_datetime d = true -> strptime ts = Ok d.
Proof.
  intros Hr Hv. unfold strptime. rewrite Hr.
  apply valid_datetime_bounds in Hv as (Hy & Hm & Hd & Hh & Hn & Hs & Hu).
  pose proof (days_in_month_le_31 (year d) (month d)) as Hdim.
  do 15 (destruct ts as [|? ts]; [discriminate Hr|]).
  destruct ts; [|discriminate Hr].
  cbn [read_fields] in Hr.
  destruct (forallb _ _ && _); [|discriminate Hr].
  injection Hr as <-. cbn [year month day hour minute second microsecond] in *.
  rewrite !(proj2 (Z.leb_le _ _)) by lia. cbn [andb skipn skip_field].
  rewrite !(proj2 (Z.leb_le _ _)) by lia. cbn [skip_field].
  rewrite !(proj2 (Z.leb_le _ _)) by lia. cbn [skip_field].
  rewrite !(proj2 (Z.leb_le _ _)) by lia.
  rewrite (proj2 (Z.eqb_neq _ _)) by lia.
  rewrite !(proj2 (Z.ltb_ge _ _)) by lia. reflexivity.
Qed.

Lemma strptime_compact d : valid_datetime d = true -> strptime (compact d) = Ok d.
Proof. intros Hv. apply strptime_valid; [now apply read_fields_compact | assumption]. Qed.

(** Every failure of [strptime] is a [ValueError]. *)
Lemma strptime_raise ts e : strptime ts = Raise e -> type_of e = TValueError.
Proof.
  unfold strptime, strptime_mismatch.
  destruct (read_fields ts) as [d|]; [|now intros [= <-]].
  destruct (_ && _); [|now intros [= <-]].
  destruct (skip_field _ _); [|now intros [= <-]].
  destruct (year d =? 0); [now intros [= <-]|].
  destruct (_ <? _); [now intros [= <-]|].
  destruct (_ <? _); [now intros [= <-]|]. discriminate.
Qed.

(** ** The identifier parser *)

Lemma re_match_default_groups s mobj :
  re_match default_pattern s = Some mobj ->
  exists a b c, mobj = validity_groups a b c.
Proof.
  rewrite re_match_default.
  destruct s as [|c1 [|c2 [|c s]]]; try discriminate.
  destruct (_ && _); [|discriminate].
  intros H. apply star_k_some_inv in H as [u [v [_ [_ H]]]].
  rewrite re_match_validity in H.
  destruct (split_validity v) as [[[[a b] c'] r]|]; [|discriminate].
  injection H as <-. now exists a, b, c'.
Qed.

(** What one turn of the loop does: it rejects the identifier, or converts
    the three captured texts in turn. *)
Lemma validity_info_of_cases p :
  (matches p = false /\
   validity_info_of p = Raise (ValueError (no_match_msg p)))
  \/ (exists a b c,
        re_match default_pattern (list_ascii_of_string p) =
          Some (validity_groups a b c) /\
        validity_info_of p =
          (let* g := strptime a in
           let* s := strptime b in
           let* e := strptime c in
           Ok (mk_ValidityInfo p g s e))).
Proof.
  unfold matches, validity_info_of.
  destruct (re_match default_pattern (list_ascii_of_string p)) as [mobj|] eqn:E;
    [right | left; split; reflexivity].
  destruct (re_match_default_groups _ _ E) as [a [b [c ->]]].
  exists a, b, c. split; reflexivity.
Qed.

Lemma validity_info_of_no_match p :
  matches p = false ->
  validity_info_of p = Raise (ValueError (no_match_msg p)).
Proof.
  intros H. destruct (validity_info_of_cases p) as [[_ E] | [a [b [c [E _]]]]];
    [assumption|].
  unfold matches in H. rewrite E in H. discriminate.
Qed.

Lemma validity_info_of_raise p e :
  validity_info_of p = Raise e -> type_of e = TValueError.
Proof.
  destruct (validity_info_of_cases p) as [[_ E] | [a [b [c [_ E]]]]]; rewrite E.
  - now intros [= <-].
  - destruct (strptime a) eqn:Ea; cbn [bind]; [|intros [= <-]; eapply strptime_raise; eauto].
    destruct (strptime b) eqn:Eb; cbn [bind]; [|intros [= <-]; eapply strptime_raise; eauto].
    destruct (strptime c) eqn:Ec; cbn [bind]; [|intros [= <-]; eapply strptime_raise; eauto].
    discriminate.
Qed.

Lemma validity_info_of_id p v : validity_info_of p = Ok v -> product_id v = p.
Proof.
  destruct (validity_info_of_cases p) as [[_ E] | [a [b [c [_ E]]]]]; rewrite E.
  - discriminate.
  - destruct (strptime a); cbn [bind]; [|discriminate].
    destruct (strptime b); cbn [bind]; [|discriminate].
    destruct (strptime c); cbn [bind]; [|discriminate].
    now intros [= <-].
Qed.

Lemma valid_timestamp_strptime ts :
  valid_timestamp ts = true -> exists d, strptime ts = Ok d.
Proof.
  unfold valid_timestamp. destruct (read_fields ts) as [d|] eqn:E; [|discriminate].
  intros Hv. exists d. now apply strptime_valid.
Qed.

Lemma validity_info_of_well_dated p :
  well_dated p = true -> exists v, validity_info_of p = Ok v.
Proof.
  unfold well_dated.
  destruct (validity_info_of_cases p) as [[E _] | [a [b [c [Em E]]]]].
  - unfold matches in E.
    destruct (re_match default_pattern (list_ascii_of_string p)); discriminate.
  - rewrite Em, E. cbn. rewrite !andb_true_iff. intros [Ha [Hb [Hc _]]].
    destruct (valid_timestamp_strptime a Ha) as [da ->].
    destruct (valid_timestamp_strptime b Hb) as [db ->].
    destruct (valid_timestamp_strptime c Hc) as [dc ->].
    cbn [bind]. eauto.
Qed.

Lemma get_validity_info_loop_ok ps :
  Forall (fun p => well_dated p = true) ps ->
  forall out, exists recs,
    get_validity_info_loop ps out = Ok (out ++ recs) /\
    map product_id recs = ps.
Proof.
  induction 1 as [|p ps Hp _ IH]; intros out.
  - exists []. cbn. now rewrite app_nil_r.
  - destruct (validity_info_of_well_dated p Hp) as [v Hv].
    cbn [get_validity_info_loop]. rewrite Hv. cbn [bind].
    destruct (IH (out ++ [v])) as [recs [E Hm]].
    exists (v :: recs). rewrite E, <- app_assoc. split; [reflexivity|].
    cbn [map]. now rewrite (validity_info_of_id p v Hv), Hm.
Qed.

Lemma get_validity_info_loop_first_failure pre x post e :
  Forall (fun p => well_dated p = true) pre ->
  validity_info_of x = Raise e ->
  forall out, get_validity_info_loop (pre ++ x :: post) out = Raise e.
Proof.
  intros Hpre Hx. induction Hpre as [|p pre Hp _ IH]; intros out.
  - cbn. now rewrite Hx.
  - destruct (validity_info_of_well_dated p Hp) as [v Hv].
    cbn [app get_validity_info_loop]. rewrite Hv. cbn [bind]. apply IH.
Qed.

Lemma get_validity_info_loop_raise ps : forall out e,
  get_validity_info_loop ps out = Raise e -> type_of e = TValueError.
Proof.
  induction ps as [|p ps IH]; intros out e; cbn [get_validity_info_loop].
  - discriminate.
  - destruct (validity_info_of p) as [v|e'] eqn:E; cbn [bind].
    + apply IH.
    + intros [= <-]. eapply validity_info_of_raise; eauto.
Qed.

Lemma get_validity_info_loop_no_match ps x :
  In x ps -> matches x = false ->
  forall out, exists e, get_validity_info_loop ps out = Raise e.
Proof.
  induction ps as [|p ps IH]; intros Hin Hx out; [destruct Hin|].
  cbn [get_validity_info_loop].
  destruct (validity_info_of p) as [v|e'] eqn:E; cbn [bind]; [|eauto].
  destruct Hin as [-> | Hin]; [|now apply IH].
  rewrite (validity_info_of_no_match x Hx) in E. discriminate.
Qed.

Lemma split_validity_block g a b r :
  split_validity (validity_block g a b ++ r) =
  Some (compact g, compact a, compact b, r).
Proof.
  unfold validity_block, split_validity. cbn [app expect].
  rewrite Ascii.eqb_refl, <- app_assoc.
  rewrite (split_timestamp_app _ _ (compact_shape g)).
  cbn [app expect]. rewrite Ascii.eqb_refl. cbn [expect].
  rewrite Ascii.eqb_refl, <- app_assoc.
  rewrite (split_timestamp_app _ _ (compact_shape a)).
  cbn [app expect]. rewrite Ascii.eqb_refl.
  now rewrite (split_timestamp_app _ _ (compact_shape b)).
Qed.

Lemma later_block_false v i :
  later_block v = false -> (0 < i)%nat ->
  forallb is_word (firstn i v) = true ->
  re_match validity_re (skipn i v) = None.
Proof.
  intros Hl Hi Hw.
  destruct (le_lt_dec i (List.length v)) as [Hle | Hgt].
  - unfold later_block in Hl.
    destruct (re_match validity_re (skipn i v)) eqn:E; [|reflexivity].
    assert (Hex : existsb
              (fun i => forallb is_word (firstn i v) &&
                        match re_match validity_re (skipn i v) with
                        | Some _ => true
                        | None => false
                        end) (seq 1 (List.length v)) = true).
    { apply existsb_exists. exists i. split; [apply in_seq; lia|].
      now rewrite Hw, E. }
    congruence.
  - rewrite skipn_all2 by lia. reflexivity.
Qed.

(** The pattern on an identifier of the format: [\w+] stops in front of the
    block of timestamps when the block is not found again later. *)
Lemma re_match_identifier w g a b trailing :
  w <> [] -> forallb is_word w = true ->
  later_block (validity_block g a b ++ trailing) = false ->
  re_match default_pattern
    (("S" :: "1" :: w)%char ++ validity_block g a b ++ trailing) =
  Some (validity_groups (compact g) (compact a) (compact b)).
Proof.
  intros Hne Hw Hl. destruct w as [|c w]; [congruence|].
  cbn [forallb] in Hw. apply andb_true_iff in Hw as [Hc Hw].
  rewrite re_match_default. cbn [app]. rewrite !Ascii.eqb_refl, Hc. cbn [andb].
  apply star_k_prefix; [assumption|].
  rewrite star_k_last.
  - now rewrite re_match_validity, split_validity_block.
  - intros i Hi Hwi. now apply later_block_false.
Qed.

(** C5. An identifier built in the format from a triple of valid datetimes,
    after a prefix [S1] and word characters, is parsed back to that triple
    when the block of timestamps does not occur a second time further on;
    the identifier of scenario D is parsed to the datetimes the scenario
    gives. *)
Theorem get_validity_info_roundtrip :
  (forall (w trailing : list ascii) (generation start stop : datetime),
     w <> [] -> forallb is_word w = true ->
     valid_datetime generation = true ->
     valid_datetime start = true ->
     valid_datetime stop = true ->
     later_block (validity_block generation start stop ++ trailing) = false ->
     get_validity_info
       [format_identifier ("S" :: "1" :: w)%char generation start stop trailing] =
     Ok [mk_ValidityInfo
           (format_identifier ("S" :: "1" :: w)%char generation start stop trailing)
           generation start stop])
  /\ get_validity_info [Scenario.id_D] =
     Ok [mk_ValidityInfo Scenario.id_D
           (Scenario.dt 2020 1 1 12 0 0) (Scenario.dt 2019 12 31 22 59 42)
           (Scenario.dt 2020 1 2 1 59 42)].
Proof.
  split; [|reflexivity].
  intros w trailing g a b Hne Hw Hg Ha Hb Hl.
  unfold get_validity_info. cbn [get_validity_info_loop].
  unfold validity_info_of at 1. unfold format_identifier at 1.
  rewrite list_ascii_of_string_of_list_ascii.
  rewrite (re_match_identifier w g a b trailing Hne Hw Hl).
  cbn [group validity_groups lookup_group String.eqb Ascii.eqb Bool.eqb bind].
  rewrite (strptime_compact g Hg). cbn [bind].
  rewrite (strptime_compact a Ha). cbn [bind].
  rewrite (strptime_compact b Hb). reflexivity.
Qed.

(** The identifier of scenario D with a second block of timestamps behind it
    is of the format, and is parsed to the datetimes of the second block:
    the statement of C5 without the condition on what follows the block
    fails. *)
Lemma get_validity_info_roundtrip_counterexample :
  let trailing := list_ascii_of_string "_V20200103T000000_20200104T000000" in
  let generation := Scenario.dt 2020 1 1 12 0 0 in
  let start := Scenario.dt 2019 12 31 22 59 42 in
  let stop := Scenario.dt 2020 1 2 1 59 42 in
  let id := format_identifier (list_ascii_of_string "S1A_AUX_POEORB")
              generation start stop trailing in
  id = Scenario.id_D_twice
  /\ valid_datetime generation = true
  /\ valid_datetime start = true
  /\ valid_datetime stop = true
  /\ get_validity_info [id] =
     Ok [mk_ValidityInfo id stop (Scenario.dt 2020 1 3 0 0 0)
           (Scenario.dt 2020 1 4 0 0 0)]
  /\ get_validity_info [id] <> Ok [mk_ValidityInfo id generation start stop].
Proof.
  cbv zeta. repeat split; try reflexivity.
  vm_compute. discriminate.
Qed.

(** C6. When every identifier of the input matches the pattern with three
    valid timestamps, the parser returns one record per identifier, in the
    order of the input, each with the identifier it was built from. *)
Theorem get_validity_info_one_record_each :
  forall products : list string,
    Forall (fun p => well_dated p = true) products ->
    exists out,
      get_validity_info products = Ok out
      /\ map product_id out = products
      /\ List.length out = List.length products.
Proof.
  intros products H.
  destruct (get_validity_info_loop_ok products H []) as [recs [E Hm]].
  exists recs. split; [exact E|]. split; [exact Hm|].
  now rewrite <- Hm, length_map.
Qed.

(** An identifier that matches the pattern with month 13 in its first
    group makes the parser fail: the statement of C6 for every matching
    input fails. *)
Lemma get_validity_info_one_record_each_counterexample :
  Forall (fun p => matches p = true) [Scenario.id_month_13]
  /\ get_validity_info [Scenario.id_month_13] =
     Raise (strptime_mismatch (list_ascii_of_string "20201301T120000"))
  /\ forall out, get_validity_info [Scenario.id_month_13] <> Ok out.
Proof.
  split; [repeat constructor|]. split; [reflexivity|].
  intros out. vm_compute. discriminate.
Qed.

(** C4. A batch with an identifier that the pattern does not match makes
    the parser raise [ValueError] and return no record at all; when the
    identifiers in front of it match with valid timestamps, the error is
    the one for that identifier, and its message quotes it. *)
Theorem get_validity_info_fail_fast :
  forall (pre post : list string) (x : string),
    matches x = false ->
    (exists e, get_validity_info (pre ++ x :: post) = Raise e
               /\ type_of e = TValueError)
    /\ (Forall (fun p => well_dated p = true) pre ->
        get_validity_info (pre ++ x :: post) = Raise (ValueError (no_match_msg x)))
    /\ (exists a b, no_match_msg x = (a ++ x ++ b)%string).
Proof.
  intros pre post x Hx. split; [|split].
  - destruct (get_validity_info_loop_no_match (pre ++ x :: post) x) with (out := @nil ValidityInfo)
      as [e He]; [apply in_elt | assumption |].
    exists e. split; [exact He|].
    eapply get_validity_info_loop_raise. exact He.
  - intros Hpre. apply get_validity_info_loop_first_failure; [assumption|].
    now apply validity_info_of_no_match.
  - exists dquote, (dquote ++ " does not math the regular expression " ++
                    "for validity")%string.
    reflexivity.
Qed.

(** In the batch below the first identifier matches the pattern and the
    second does not; the parser fails on the first, in [strptime], and the
    error does not name the second: the statement of C4 for every batch
    fails. *)
Lemma get_validity_info_fail_fast_counterexample :
  let batch := [Scenario.id_month_13; Scenario.id_garbage] in
  matches Scenario.id_month_13 = true
  /\ matches Scenario.id_garbage = false
  /\ get_validity_info batch =
     Raise (strptime_mismatch (list_ascii_of_string "20201301T120000"))
  /\ get_validity_info batch <>
     Raise (ValueError (no_match_msg Scenario.id_garbage)).
Proof.
  cbv zeta. repeat split; try reflexivity.
  vm_compute. discriminate.
Qed.

Lemma lastval_cover_raise t0 t1 data e :
  lastval_cover t0 t1 data = Raise e ->
  e = ValidityError (no_cover_msg t0 t1).
Proof.
  unfold lastval_cover.
  destruct (candidates_of t0 t1 data) as [|c cs]; [now intros [= <-]|].
  pose proof (list_sort_perm generation_date dt_ltb true (c :: cs)) as Hp.
  destruct (list_sort generation_date dt_ltb true (c :: cs)); [|discriminate].
  apply Permutation_nil in Hp. discriminate Hp.
Qed.

(** C9. An error of the selector is a [ValidityError] and an error of the
    parser is a plain [ValueError]: the classes differ, and a test for
    [ValidityError] accepts the first and rejects the second (a test for
    [ValueError] accepts both, [ValidityError] being its subclass). *)
Theorem selection_error_distinct_from_parse_error :
  forall (t0 t1 : datetime) (data : list ValidityInfo)
         (products : list string) (e1 e2 : exception),
    lastval_cover t0 t1 data = Raise e1 ->
    get_validity_info products = Raise e2 ->
    type_of e1 = TValidityError
    /\ type_of e2 = TValueError
    /\ type_of e1 <> type_of e2
    /\ isinstance e1 TValidityError = true
    /\ isinstance e2 TValidityError = false
    /\ isinstance e1 TValueError = true
    /\ isinstance e2 TValueError = true.
Proof.
  intros t0 t1 data products e1 e2 H1 H2.
  apply lastval_cover_raise in H1 as ->.
  apply get_validity_info_loop_raise in H2.
  unfold isinstance. rewrite H2. cbn. repeat split; discriminate.
Qed.

(** ** The client *)

(** C7. For a product of mission S1A or S1B, with a product type the client
    accepts and widened bounds that are datetimes, the client sends one
    query to the catalog, for the interval from [t0 - t0_margin] to
    [t1 + t1_margin], and then selects among the answer with [t0] and [t1]
    themselves; a margin left out is one day. *)
Theorem query_orbit_for_product_widens_then_selects :
  forall (S1Product_of_str : string -> result S1Product)
         (api_query : query -> result (list (string * entry)))
         (product : string + S1Product) (p : S1Product)
         (product_type : option string)
         (t0_margin t1_margin : option timedelta)
         (log : list query) (q0 q1 : datetime),
    match product with inl s => S1Product_of_str s | inr p' => Ok p' end = Ok p ->
    mission p = "S1A"%string \/ mission p = "S1B"%string ->
    default "AUX_POEORB"%string product_type = "AUX_POEORB"%string
      \/ default "AUX_POEORB"%string product_type = "AUX_RESORB"%string ->
    datetime_sub (start_time p) (default (timedelta_days 1) t0_margin) = Ok q0 ->
    datetime_add (stop_time p) (default (timedelta_days 1) t1_margin) = Ok q1 ->
    ScihubGnssClient.query_orbit_for_product S1Product_of_str api_query
      product product_type t0_margin t1_margin log =
    (let* products :=
       api_query (mk_query (default "AUX_POEORB"%string product_type)
                           (tail_str (mission p)) (q0, q1)) in
     let* validity_info :=
       get_validity_info (map (fun kv => identifier (snd kv)) products) in
     let* product_id :=
       lastval_cover (start_time p) (stop_time p) validity_info in
     Ok (List.filter (fun kv => String.eqb (identifier (snd kv)) product_id)
                     products),
     log ++ [mk_query (default "AUX_POEORB"%string product_type)
                      (tail_str (mission p)) (q0, q1)]).
Proof.
  intros S1Product_of_str api_query product p product_type t0_margin t1_margin
         log q0 q1 Hp Hm Ht H0 H1.
  unfold ScihubGnssClient.query_orbit_for_product.
  rewrite Hp. unfold ScihubGnssClient.T0, ScihubGnssClient.T1.
  rewrite H0, H1. unfold ScihubGnssClient.query_orbit.
  assert (Em : (String.eqb (mission p) "S1A" || String.eqb (mission p) "S1B") = true).
  { destruct Hm as [-> | ->]; reflexivity. }
  assert (Et : (String.eqb (default "AUX_POEORB"%string product_type) "AUX_POEORB"
                || String.eqb (default "AUX_POEORB"%string product_type) "AUX_RESORB")
               = true).
  { destruct Ht as [-> | ->]; reflexivity. }
  rewrite Em, Et. reflexivity.
Qed.

(** A product of a mission other than S1A and S1B stops the client at its
    assertion, and a product of the first day of the calendar stops it at
    the subtraction of the margin: in both cases no query is sent, so the
    statement of C7 for every product fails. *)
Lemma query_orbit_for_product_counterexample :
  ScihubGnssClient.query_orbit_for_product Scenario.no_product Scenario.catalog
    (inr Scenario.product_S1C) None None None [] = (Raise AssertionError, [])
  /\ ScihubGnssClient.query_orbit_for_product Scenario.no_product Scenario.catalog
       (inr Scenario.product_year_1) None None None [] =
     (Raise (OverflowError "date value out of range"), []).
Proof. split; reflexivity. Qed.

(** ** The theorems at the scenarios of the specification *)

(** Scenario B, in both orders of the input. *)
Lemma lastval_cover_latest_generation_witness :
  let t0 := Scenario.dt 2020 6 1 0 0 0 in
  let t1 := Scenario.dt 2020 6 2 0 0 0 in
  let data := [Scenario.record_B3; Scenario.record_B5] in
  exists r,
    In r data /\ Covers t0 t1 r
    /\ (forall x, In x data -> Covers t0 t1 x ->
                  dt_le (generation_date x) (generation_date r))
    /\ lastval_cover t0 t1 data = Ok (product_id r)
    /\ (forall data', Permutation data data' ->
                      lastval_cover t0 t1 data' = Ok (product_id r)).
Proof.
  cbv zeta. apply lastval_cover_latest_generation.
  - vm_compute. lia.
  - vm_compute. constructor.
    + intros [H | []]. discriminate H.
    + constructor; [intros [] | constructor].
Defined.

(** Scenario C. *)
Lemma lastval_cover_no_cover_raises_witness :
  let t0 := Scenario.dt 2020 6 1 0 0 0 in
  let t1 := Scenario.dt 2020 6 2 0 0 1 in
  lastval_cover t0 t1 [Scenario.record_C] =
    Raise (ValidityError (no_cover_msg t0 t1))
  /\ (exists a b c,
        no_cover_msg t0 t1 =
        (a ++ datetime_str t0 ++ b ++ datetime_str t1 ++ c)%string)
  /\ (forall id, lastval_cover t0 t1 [Scenario.record_C] <> Ok id)
  /\ type_of (ValidityError (no_cover_msg t0 t1)) = TValidityError.
Proof.
  cbv zeta. apply lastval_cover_no_cover_raises.
  constructor; [|constructor].
  intros [_ H]. apply dt_leb_spec in H. discriminate H.
Defined.

(** Two covering records generated on 2020-06-05, after an older one. *)
Lemma lastval_cover_tie_earliest_witness :
  lastval_cover (Scenario.dt 2020 6 1 0 0 0) (Scenario.dt 2020 6 2 0 0 0)
    ([Scenario.record_B3] ++ Scenario.record_B5 :: [Scenario.record_B5']) =
  Ok (product_id Scenario.record_B5).
Proof.
  apply lastval_cover_tie_earliest.
  - apply covers_spec. reflexivity.
  - intros x [<- | [<- | [<- | []]]] _; apply dt_leb_spec; reflexivity.
  - intros x [<- | []] _. vm_compute. discriminate.
Defined.

Lemma lastval_cover_store_frame_witness :
  let t0 := Scenario.dt 2020 6 1 0 0 0 in
  let t1 := Scenario.dt 2020 6 2 0 0 0 in
  let items := [Scenario.record_B3; Scenario.record_B5] in
  let h : gmap nat (list ValidityInfo) := {[ 7%nat := items ]} in
  exists h',
    lastval_cover_store t0 t1 7%nat h = Some (lastval_cover t0 t1 items, h')
    /\ h' !! 7%nat = Some items
    /\ (forall l v, h !! l = Some v -> h' !! l = Some v).
Proof.
  cbv zeta. apply lastval_cover_store_frame. apply lookup_singleton_eq.
Defined.

(** Scenario D. *)
Lemma get_validity_info_roundtrip_witness :
  get_validity_info
    [format_identifier (list_ascii_of_string "S1A_AUX_POEORB")
       (Scenario.dt 2020 1 1 12 0 0) (Scenario.dt 2019 12 31 22 59 42)
       (Scenario.dt 2020 1 2 1 59 42) []] =
  Ok [mk_ValidityInfo Scenario.id_D
        (Scenario.dt 2020 1 1 12 0 0) (Scenario.dt 2019 12 31 22 59 42)
        (Scenario.dt 2020 1 2 1 59 42)].
Proof.
  apply (proj1 get_validity_info_roundtrip
           (list_ascii_of_string "A_AUX_POEORB") []
           (Scenario.dt 2020 1 1 12 0 0) (Scenario.dt 2019 12 31 22 59 42)
           (Scenario.dt 2020 1 2 1 59 42)).
  - discriminate.
  - reflexivity.
  - reflexivity.
  - reflexivity.
  - reflexivity.
  - vm_compute. reflexivity.
Defined.

Lemma get_validity_info_one_record_each_witness :
  exists out,
    get_validity_info [Scenario.id_D; Scenario.id_D_twice] = Ok out
    /\ map product_id out = [Scenario.id_D; Scenario.id_D_twice]
    /\ List.length out = 2%nat.
Proof.
  apply (get_validity_info_one_record_each [Scenario.id_D; Scenario.id_D_twice]).
  repeat constructor.
Defined.

(** A malformed identifier between two well-formed ones. *)
Lemma get_validity_info_fail_fast_witness :
  get_validity_info ([Scenario.id_D] ++ Scenario.id_garbage :: [Scenario.id_D]) =
  Raise (ValueError (no_match_msg Scenario.id_garbage)).
Proof.
  apply (proj1 (proj2 (get_validity_info_fail_fast
                         [Scenario.id_D] [Scenario.id_D] Scenario.id_garbage
                         eq_refl))).
  repeat constructor.
Defined.

Lemma selection_error_distinct_from_parse_error_witness :
  let t0 := Scenario.dt 2020 6 1 0 0 0 in
  let t1 := Scenario.dt 2020 6 2 0 0 1 in
  let e1 := ValidityError (no_cover_msg t0 t1) in
  let e2 := ValueError (no_match_msg Scenario.id_garbage) in
  type_of e1 = TValidityError
  /\ type_of e2 = TValueError
  /\ type_of e1 <> type_of e2
  /\ isinstance e1 TValidityError = true
  /\ isinstance e2 TValidityError = false
  /\ isinstance e1 TValueError = true
  /\ isinstance e2 TValueError = true.
Proof.
  cbv zeta.
  apply (selection_error_distinct_from_parse_error
           (Scenario.dt 2020 6 1 0 0 0) (Scenario.dt 2020 6 2 0 0 1)
           [Scenario.record_C] [Scenario.id_garbage]); reflexivity.
Defined.

(** A product of Sentinel-1A with the margins left out: the catalog is asked
    for 2020-05-31 12:00:00 .. 2020-06-02 12:00:25, and the orbit file is
    selected for 2020-06-01 12:00:00 .. 12:00:25. *)
Lemma query_orbit_for_product_witness :
  ScihubGnssClient.query_orbit_for_product Scenario.no_product Scenario.catalog
    (inr Scenario.product_S1A) None None None [] =
  (Scenario.catalog
     (mk_query "AUX_POEORB" "1A"
        (Scenario.dt 2020 5 31 12 0 0, Scenario.dt 2020 6 2 12 0 25)),
   [mk_query "AUX_POEORB" "1A"
      (Scenario.dt 2020 5 31 12 0 0, Scenario.dt 2020 6 2 12 0 25)]).
Proof.
  apply (query_orbit_for_product_widens_then_selects
           Scenario.no_product Scenario.catalog
           (inr Scenario.product_S1A) Scenario.product_S1A None None None []
           (Scenario.dt 2020 5 31 12 0 0) (Scenario.dt 2020 6 2 12 0 25)).
  - reflexivity.
  - left. reflexivity.
  - left. reflexivity.
  - reflexivity.
  - reflexivity.
Defined.

(** Scenario A: the only record covers the interval and is selected. *)
Example scenario_A :
  lastval_cover (Scenario.dt 2020 1 1 12 0 0) (Scenario.dt 2020 1 2 12 0 0)
    [Scenario.record_A] = Ok "X"%string.
Proof. reflexivity. Qed.

(** Scenario B: the record generated on 2020-06-05 is selected. *)
Example scenario_B :
  lastval_cover (Scenario.dt 2020 6 1 0 0 0) (Scenario.dt 2020 6 2 0 0 0)
    [Scenario.record_B3; Scenario.record_B5] = Ok "B5"%string
  /\ lastval_cover (Scenario.dt 2020 6 1 0 0 0) (Scenario.dt 2020 6 2 0 0 0)
       [Scenario.record_B5; Scenario.record_B3] = Ok "B5"%string.
Proof. split; reflexivity. Qed.

(** Scenario C: one second short of [t1], the record is left out and the
    selection fails. *)
Example scenario_C :
  candidates_of (Scenario.dt 2020 6 1 0 0 0) (Scenario.dt 2020 6 2 0 0 1)
    [Scenario.record_C] = []
  /\ lastval_cover (Scenario.dt 2020 6 1 0 0 0) (Scenario.dt 2020 6 2 0 0 1)
       [Scenario.record_C] =
     Raise (ValidityError
              "none of the input products completely covers the requested time interval: [t0=2020-06-01 00:00:00, t1=2020-06-02 00:00:01]").
Proof. split; reflexivity. Qed.

(** The boundary: a record whose validity is exactly the interval covers
    it. *)
Example boundary_equal_covers :
  lastval_cover (Scenario.dt 2020 6 1 0 0 0) (Scenario.dt 2020 6 2 0 0 0)
    [Scenario.record_C] = Ok "C"%string.
Proof. reflexivity. Qed.

(** * Further properties of the selector *)

Lemma first_latest_exists (l : list ValidityInfo) :
  l <> [] ->
  exists pre r post,
    l = pre ++ r :: post
    /\ (forall x, In x pre -> dt_lt (generation_date x) (generation_date r))
    /\ (forall x, In x post -> dt_le (generation_date x) (generation_date r)).
Proof.
  induction l as [|a l IH]; [congruence|]. intros _.
  destruct l as [|b l].
  - exists [], a, []. split; [reflexivity|]. split; intros x [].
  - destruct IH as (pre & r & post & E & Hpre & Hpost); [discriminate|].
    destruct (dt_le_total (generation_date r) (generation_date a)) as [H | H].
    + exists [], a, (b :: l). split; [reflexivity|]. split; [intros x []|].
      intros x Hx. rewrite E in Hx. apply in_app_or in Hx as [Hx | [<- | Hx]].
      * eapply dt_le_trans; [|exact H]. left. now apply Hpre.
      * exact H.
      * eapply dt_le_trans; [|exact H]. now apply Hpost.
    + apply dt_le_lt_or_eq in H as [H | H].
      * exists (a :: pre), r, post. rewrite E. split; [reflexivity|].
        split; [|assumption]. intros x [<- | Hx]; auto.
      * exists [], a, (b :: l). split; [reflexivity|]. split; [intros x []|].
        intros x Hx. rewrite E in Hx. rewrite H.
        apply in_app_or in Hx as [Hx | [<- | Hx]].
        -- left. now apply Hpre.
        -- apply dt_le_refl.
        -- now apply Hpost.
Qed.

Lemma filter_split {A} (f : A -> bool) (l : list A) : forall pre' r post',
  List.filter f l = pre' ++ r :: post' ->
  exists pre post,
    l = pre ++ r :: post /\ List.filter f pre = pre'
    /\ List.filter f post = post' /\ f r = true.
Proof.
  induction l as [|a l IH]; intros pre' r post' E; cbn [List.filter] in E.
  - destruct pre'; discriminate E.
  - destruct (f a) eqn:Ea.
    + destruct pre' as [|b pre'].
      * injection E as -> E. exists [], l. cbn. auto.
      * injection E as -> E. destruct (IH _ _ _ E) as (pre & post & -> & <- & <- & Hr).
        exists (b :: pre), post. cbn [List.filter app]. now rewrite Ea.
    + destruct (IH _ _ _ E) as (pre & post & -> & <- & <- & Hr).
      exists (a :: pre), post. cbn [List.filter app]. now rewrite Ea.
Qed.

(** What a returned identifier is. *)
Lemma lastval_cover_ok_inv :
  forall (t0 t1 : datetime) (data : list ValidityInfo) (id : string),
    lastval_cover t0 t1 data = Ok id ->
    exists pre r post,
      data = pre ++ r :: post
      /\ product_id r = id
      /\ Covers t0 t1 r
      /\ (forall x, In x data -> Covers t0 t1 x ->
                    dt_le (generation_date x) (generation_date r))
      /\ (forall x, In x pre -> Covers t0 t1 x ->
                    dt_lt (generation_date x) (generation_date r)).
Proof.
  intros t0 t1 data id H.
  destruct (candidates_of t0 t1 data) as [|c cs] eqn:Ec.
  { unfold lastval_cover in H. rewrite Ec in H. discriminate H. }
  destruct (first_latest_exists (c :: cs)) as (pre' & r & post' & E & Hpre & Hpost);
    [discriminate|].
  rewrite <- Ec in E. unfold candidates_of in E.
  destruct (filter_split _ _ _ _ _ E) as (pre & post & -> & Epre & Epost & Hr).
  apply covers_spec in Hr.
  assert (Hpre2 : forall x, In x pre -> Covers t0 t1 x ->
                            dt_lt (generation_date x) (generation_date r)).
  { intros x Hx Hc. apply Hpre. rewrite <- Epre.
    apply filter_In. split; [assumption | now apply covers_spec]. }
  assert (Hpost2 : forall x, In x post -> Covers t0 t1 x ->
                             dt_le (generation_date x) (generation_date r)).
  { intros x Hx Hc. apply Hpost. rewrite <- Epost.
    apply filter_In. split; [assumption | now apply covers_spec]. }
  rewrite (lastval_cover_first_latest t0 t1 pre r post Hr Hpre2 Hpost2) in H.
  injection H as <-.
  exists pre, r, post.
  split; [reflexivity|]. split; [reflexivity|]. split; [assumption|].
  split; [|assumption].
  intros x Hx Hc. apply in_app_or in Hx as [Hx | [<- | Hx]].
  - left. now apply Hpre2.
  - apply dt_le_refl.
  - now apply Hpost2.
Qed.

(** X1. Whatever the input, an identifier returned by the selector is the
    identifier of the first record of the input among the covering records
    of latest generation date. *)
Theorem lastval_cover_returns_first_latest_covering :
  forall (t0 t1 : datetime) (data : list ValidityInfo) (id : string),
    lastval_cover t0 t1 data = Ok id ->
    exists pre r post,
      data = pre ++ r :: post
      /\ product_id r = id
      /\ Covers t0 t1 r
      /\ (forall x, In x data -> Covers t0 t1 x ->
                    dt_le (generation_date x) (generation_date r))
      /\ (forall x, In x pre -> Covers t0 t1 x ->
                    dt_lt (generation_date x) (generation_date r)).
Proof. exact lastval_cover_ok_inv. Qed.

Lemma lastval_cover_ok_iff t0 t1 data :
  (exists id, lastval_cover t0 t1 data = Ok id)
  <-> (exists r, In r data /\ Covers t0 t1 r).
Proof.
  split.
  - intros [id H].
    destruct (lastval_cover_ok_inv t0 t1 data id H)
      as (pre & r & post & -> & _ & Hc & _).
    exists r. split; [apply in_elt | assumption].
  - intros [r [Hin Hc]].
    assert (Hne : candidates_of t0 t1 data <> []).
    { intros E. assert (Hr : In r (candidates_of t0 t1 data))
        by now apply candidates_of_In.
      rewrite E in Hr. destruct Hr. }
    destruct (first_latest_exists _ Hne) as (pre' & r' & post' & E & Hpre & Hpost).
    unfold candidates_of in E.
    destruct (filter_split _ _ _ _ _ E) as (pre & post & -> & Epre & Epost & Hr).
    exists (product_id r'). apply lastval_cover_first_latest.
    + now apply covers_spec.
    + intros x Hx Hcx. apply Hpre. rewrite <- Epre.
      apply filter_In. split; [assumption | now apply covers_spec].
    + intros x Hx Hcx. apply Hpost. rewrite <- Epost.
      apply filter_In. split; [assumption | now apply covers_spec].
Qed.

(** X2. The selector returns an identifier exactly when some record of the
    input covers the interval. *)
Theorem lastval_cover_returns_iff_covered :
  forall (t0 t1 : datetime) (data : list ValidityInfo),
    (exists id, lastval_cover t0 t1 data = Ok id)
    <-> (exists r, In r data /\ Covers t0 t1 r).
Proof. exact lastval_cover_ok_iff. Qed.

(** X3. Narrowing the interval never loses the selection: when the selector
    returns for [(t0, t1)], it returns for every interval inside it, and
    the record it selects then is generated no earlier. *)
Theorem lastval_cover_narrower_interval :
  forall (t0 t1 t0' t1' : datetime) (data : list ValidityInfo) (id : string),
    dt_le t0 t0' -> dt_le t1' t1 ->
    lastval_cover t0 t1 data = Ok id ->
    exists r r',
      In r data /\ product_id r = id
      /\ In r' data /\ lastval_cover t0' t1' data = Ok (product_id r')
      /\ dt_le (generation_date r) (generation_date r').
Proof.
  intros t0 t1 t0' t1' data id H0 H1 H.
  destruct (lastval_cover_ok_inv t0 t1 data id H)
    as (pre & r & post & E & Hid & [Hc0 Hc1] & _).
  assert (Hc' : Covers t0' t1' r).
  { split; eapply dt_le_trans; eauto. }
  assert (Hin : In r data) by (rewrite E; apply in_elt).
  destruct (proj2 (lastval_cover_ok_iff t0' t1' data)) as [id' H'].
  { exists r. auto. }
  destruct (lastval_cover_ok_inv t0' t1' data id' H')
    as (pre2 & r' & post2 & E2 & Hid' & _ & Hmax & _).
  exists r, r'.
  split; [assumption|]. split; [assumption|].
  split; [rewrite E2; apply in_elt|].
  split; [now rewrite Hid' | now apply Hmax].
Qed.

(** * Further properties of the parser *)

Lemma is_digit_val c : is_digit c = true -> 0 <= digit_val c <= 9.
Proof.
  unfold is_digit, digit_val. rewrite andb_true_iff, !N.leb_le. lia.
Qed.

Lemma valid_datetime_intro d :
  1 <= year d <= 9999 -> 1 <= month d <= 12 ->
  1 <= day d <= days_in_month (year d) (month d) ->
  0 <= hour d <= 23 -> 0 <= minute d <= 59 -> 0 <= second d <= 59 ->
  microsecond d = 0 ->
  valid_datetime d = true.
Proof.
  intros. unfold valid_datetime.
  rewrite !andb_true_iff, !Z.leb_le, Z.eqb_eq. tauto.
Qed.

Lemma skip_fields_nil h1 h2 n1 n2 s1 s2 :
  skip_field 61 (skip_field 59 (skip_field 23 [h1; h2; n1; n2; s1; s2])) = [] ->
  int_of_digits [h1; h2] <= 23 /\ int_of_digits [n1; n2] <= 59
  /\ int_of_digits [s1; s2] <= 61.
Proof.
  cbn [skip_field].
  destruct (int_of_digits [h1; h2] <=? 23) eqn:Eh; cbn [skip_field].
  - destruct (int_of_digits [n1; n2] <=? 59) eqn:En; cbn [skip_field].
    + destruct (int_of_digits [s1; s2] <=? 61) eqn:Es; [|discriminate].
      intros _. apply Z.leb_le in Eh, En, Es. auto.
    + destruct (int_of_digits [n2; s1] <=? 61); discriminate.
  - destruct (int_of_digits [h2; n1] <=? 59); cbn [skip_field];
      destruct (int_of_digits _ <=? 61); discriminate.
Qed.

(** What [strptime] returns is read from the text and is a valid
    datetime. *)
Lemma strptime_ok_inv ts d :
  strptime ts = Ok d -> read_fields ts = Some d /\ valid_datetime d = true.
Proof.
  unfold strptime. destruct (read_fields ts) as [d'|] eqn:Er; [|discriminate].
  destruct (_ && _) eqn:Emd; [|discriminate].
  destruct (skip_field _ _) eqn:Esk; [|discriminate].
  destruct (year d' =? 0) eqn:Ey; [discriminate|].
  destruct (_ <? _) eqn:Ed; [discriminate|].
  destruct (59 <? second d') eqn:Es; [discriminate|].
  intros [= <-]. split; [reflexivity|].
  do 15 (destruct ts as [|? ts]; [discriminate Er|]).
  destruct ts; [|discriminate Er].
  cbn [read_fields] in Er.
  destruct (forallb _ _ && _) eqn:Edig; [|discriminate Er].
  injection Er as <-.
  cbn [skipn] in Esk. apply skip_fields_nil in Esk as (Hh & Hn & Hs).
  cbn [year month day hour minute second microsecond] in *.
  apply andb_true_iff in Edig as [Edig _].
  cbn [forallb] in Edig. rewrite !andb_true_iff in Edig.
  destruct Edig as (D1 & D2 & D3 & D4 & D5 & D6 & D7 & D8 & D9 & D10 & D11
                    & D12 & D13 & D14 & _).
  apply is_digit_val in D1, D2, D3, D4, D5, D6, D7, D8, D9, D10, D11, D12, D13, D14.
  rewrite !andb_true_iff, !Z.leb_le in Emd.
  apply Z.eqb_neq in Ey. apply Z.ltb_ge in Ed, Es.
  unfold int_of_digits in *. cbn [fold_left] in *.
  apply valid_datetime_intro;
    cbn [year month day hour minute second microsecond]; lia.
Qed.

Lemma validity_info_of_ok_inv p v :
  validity_info_of p = Ok v ->
  well_dated p = true /\ product_id v = p
  /\ valid_datetime (generation_date v) = true
  /\ valid_datetime (start_validity v) = true
  /\ valid_datetime (stop_validity v) = true.
Proof.
  unfold well_dated.
  destruct (validity_info_of_cases p) as [[_ E] | [a [b [c [Em E]]]]]; rewrite E;
    [discriminate|].
  rewrite Em.
  destruct (strptime a) as [da|] eqn:Ea; cbn [bind]; [|discriminate].
  destruct (strptime b) as [db|] eqn:Eb; cbn [bind]; [|discriminate].
  destruct (strptime c) as [dc|] eqn:Ec; cbn [bind]; [|discriminate].
  intros [= <-].
  apply strptime_ok_inv in Ea as [Ra Va], Eb as [Rb Vb], Ec as [Rc Vc].
  cbn. unfold valid_timestamp. rewrite Ra, Rb, Rc, Va, Vb, Vc. auto.
Qed.

(** The loop converts the identifiers one by one. *)
Lemma get_validity_info_loop_ok_iff ps : forall out res,
  get_validity_info_loop ps out = Ok res <->
  exists recs, res = out ++ recs /\
               Forall2 (fun p r => validity_info_of p = Ok r) ps recs.
Proof.
  induction ps as [|p ps IH]; intros out res; cbn [get_validity_info_loop].
  - split.
    + intros [= <-]. exists []. split; [now rewrite app_nil_r | constructor].
    + intros (recs & -> & H). inversion H. now rewrite app_nil_r.
  - destruct (validity_info_of p) as [v|e] eqn:E; cbn [bind].
    + rewrite IH. split.
      * intros (recs & -> & H). exists (v :: recs).
        split; [now rewrite <- app_assoc | now constructor].
      * intros (recs & -> & H). inversion H as [|? r ? recs' Hr H']; subst.
        assert (r = v) by congruence. subst.
        exists recs'. split; [now rewrite <- app_assoc | assumption].
    + split; [discriminate|].
      intros (recs & _ & H). inversion H; congruence.
Qed.

Lemma get_validity_info_ok_iff ps res :
  get_validity_info ps = Ok res <->
  Forall2 (fun p r => validity_info_of p = Ok r) ps res.
Proof.
  unfold get_validity_info. rewrite get_validity_info_loop_ok_iff. split.
  - now intros (recs & -> & H).
  - intros H. now exists res.
Qed.

Lemma get_validity_info_loop_out ps : forall out,
  get_validity_info_loop ps out =
  let* recs := get_validity_info_loop ps [] in Ok (out ++ recs).
Proof.
  induction ps as [|p ps IH]; intros out; cbn [get_validity_info_loop].
  - cbn. now rewrite app_nil_r.
  - destruct (validity_info_of p) as [v|e]; cbn [bind app]; [|reflexivity].
    rewrite (IH (out ++ [v])), (IH [v]).
    destruct (get_validity_info_loop ps []); cbn [bind]; [|reflexivity].
    now rewrite <- app_assoc.
Qed.

Lemma get_validity_info_loop_app xs : forall ys out,
  get_validity_info_loop (xs ++ ys) out =
  let* a := get_validity_info_loop xs out in get_validity_info_loop ys a.
Proof.
  induction xs as [|x xs IH]; intros ys out; cbn [app get_validity_info_loop].
  - reflexivity.
  - destruct (validity_info_of x); cbn [bind]; [apply IH | reflexivity].
Qed.

(** X4. The parser returns a list exactly when every identifier matches the
    pattern with three valid timestamps; each record it returns is the one
    the parser returns for its identifier alone, and its three datetimes are
    dates of the calendar with a time of the day. *)
Theorem get_validity_info_returns_iff_well_dated :
  forall products : list string,
    ((exists out, get_validity_info products = Ok out)
     <-> Forall (fun p => well_dated p = true) products)
    /\ (forall out, get_validity_info products = Ok out ->
          Forall2 (fun p r => product_id r = p /\ get_validity_info [p] = Ok [r])
                  products out
          /\ Forall (fun r => valid_datetime (generation_date r) = true
                              /\ valid_datetime (start_validity r) = true
                              /\ valid_datetime (stop_validity r) = true) out).
Proof.
  intros products. split; [split|].
  - intros [out H]. apply get_validity_info_ok_iff in H.
    induction H as [|p r ps rs Hr _ IH]; constructor; [|assumption].
    now apply validity_info_of_ok_inv in Hr.
  - intros H. destruct (get_validity_info_loop_ok products H []) as [recs [E _]].
    now exists recs.
  - intros out H. apply get_validity_info_ok_iff in H.
    induction H as [|p r ps rs Hr _ [IH1 IH2]]; [split; constructor|].
    pose proof (validity_info_of_ok_inv p r Hr) as (_ & Hid & Vg & Vs & Ve).
    split; constructor; auto.
    split; [assumption|].
    unfold get_validity_info. cbn [get_validity_info_loop]. now rewrite Hr.
Qed.

Lemma get_validity_info_concat (xs ys : list string) :
  get_validity_info (xs ++ ys) =
  let* a := get_validity_info xs in
  let* b := get_validity_info ys in
  Ok (a ++ b).
Proof.
  unfold get_validity_info.
  rewrite get_validity_info_loop_app.
  destruct (get_validity_info_loop xs []) as [a|e]; cbn [bind]; [|reflexivity].
  apply get_validity_info_loop_out.
Qed.

(** X5. Parsing a batch made of two batches is parsing the first and then
    the second: the result is the first list followed by the second, and
    the error is the first error met. *)
Theorem get_validity_info_app :
  forall xs ys : list string,
    get_validity_info (xs ++ ys) =
    let* a := get_validity_info xs in
    let* b := get_validity_info ys in
    Ok (a ++ b).
Proof. exact get_validity_info_concat. Qed.

(** ** The language of the pattern *)

Lemma split_validity_some s a b c r :
  split_validity s = Some (a, b, c, r) <->
  s = block_of a b c ++ r
  /\ timestamp_shape a /\ timestamp_shape b /\ timestamp_shape c.
Proof.
  unfold split_validity, block_of. split.
  - intros H.
    destruct (expect "_" s) as [s1|] eqn:E1; [|discriminate].
    destruct (split_timestamp s1) as [[a' s2]|] eqn:E2; [|discriminate].
    destruct (expect "_" s2) as [s3|] eqn:E3; [|discriminate].
    destruct (expect "V" s3) as [s4|] eqn:E4; [|discriminate].
    destruct (split_timestamp s4) as [[b' s5]|] eqn:E5; [|discriminate].
    destruct (expect "_" s5) as [s6|] eqn:E6; [|discriminate].
    destruct (split_timestamp s6) as [[c' r']|] eqn:E7; [|discriminate].
    injection H as <- <- <- <-.
    apply expect_some in E1, E3, E4, E6. subst.
    apply split_timestamp_some in E2 as [E2 Ha], E5 as [E5 Hb], E7 as [E7 Hc].
    subst. split; [|auto].
    cbn [app]. rewrite <- !app_assoc. cbn [app]. rewrite <- !app_assoc.
    reflexivity.
  - intros (-> & Ha & Hb & Hc).
    cbn [app expect]. rewrite Ascii.eqb_refl, <- app_assoc.
    rewrite (split_timestamp_app _ _ Ha).
    cbn [app expect]. rewrite Ascii.eqb_refl. cbn [expect].
    rewrite Ascii.eqb_refl, <- app_assoc.
    rewrite (split_timestamp_app _ _ Hb).
    cbn [app expect]. rewrite Ascii.eqb_refl.
    now rewrite (split_timestamp_app _ _ Hc).
Qed.

Lemma star_k_some_if {R} p (k : list ascii -> option R) v r :
  k v = Some r -> exists r', star_k p k v = Some r'.
Proof.
  intros H. destruct v as [|c v]; cbn [star_k]; [eauto|].
  destruct (p c); [|eauto]. destruct (star_k p k v); eauto.
Qed.

(** X6. The identifiers the pattern matches are exactly the texts made of
    [S1], one or more word characters, a block of three timestamps of the
    shape [\d{8}T\d{6}] joined as [_a_Vb_c], and anything after it. *)
Theorem matches_iff_block_after_prefix :
  forall p : string,
    matches p = true <->
    exists c w a b d rest,
      list_ascii_of_string p =
        ("S" :: "1" :: c :: w)%char ++ block_of a b d ++ rest
      /\ is_word c = true /\ forallb is_word w = true
      /\ timestamp_shape a /\ timestamp_shape b /\ timestamp_shape d.
Proof.
  intros p. unfold matches. rewrite re_match_default. split.
  - destruct (list_ascii_of_string p) as [|c1 [|c2 [|c s]]]; try discriminate.
    destruct (Ascii.eqb "S" c1) eqn:E1; [|discriminate].
    destruct (Ascii.eqb "1" c2) eqn:E2; [|discriminate].
    destruct (is_word c) eqn:Ec; [|discriminate]. cbn [andb].
    apply Ascii.eqb_eq in E1, E2. subst.
    destruct (star_k is_word (re_match validity_re) s) as [g|] eqn:Es;
      [|discriminate].
    intros _. apply star_k_some_inv in Es as (w & v & -> & Hw & Hv).
    rewrite re_match_validity in Hv.
    destruct (split_validity v) as [[[[a b] d] r]|] eqn:Ev; [|discriminate].
    apply split_validity_some in Ev as (-> & Ha & Hb & Hd).
    exists c, w, a, b, d, r. cbn [app]. auto 10.
  - intros (c & w & a & b & d & rest & -> & Hc & Hw & Ha & Hb & Hd).
    cbn [app]. rewrite !Ascii.eqb_refl, Hc. cbn [andb].
    destruct (star_k_some_if is_word (re_match validity_re)
                (block_of a b d ++ rest) (validity_groups a b d)) as [g Hg].
    { rewrite re_match_validity.
      now rewrite (proj2 (split_validity_some _ a b d rest)). }
    now rewrite (star_k_prefix is_word _ w _ g Hw Hg).
Qed.

(** ** What follows the word characters *)

Lemma is_digit_is_word c : is_digit c = true -> is_word c = true.
Proof. intros H. unfold is_word. now rewrite H. Qed.

Lemma forallb_digit_word l :
  forallb is_digit l = true -> forallb is_word l = true.
Proof.
  rewrite !forallb_forall. intros H c Hc. now apply is_digit_is_word, H.
Qed.

Lemma timestamp_shape_word a :
  timestamp_shape a -> forallb is_word a = true.
Proof.
  intros (d & t & -> & _ & _ & Hd & Ht).
  rewrite forallb_app. cbn [forallb].
  now rewrite (forallb_digit_word d Hd), (forallb_digit_word t Ht).
Qed.

Lemma block_of_word a b c :
  timestamp_shape a -> timestamp_shape b -> timestamp_shape c ->
  forallb is_word (block_of a b c) = true.
Proof.
  intros Ha Hb Hc. unfold block_of.
  cbn [forallb]. rewrite forallb_app. cbn [forallb]. rewrite forallb_app.
  cbn [forallb].
  now rewrite (timestamp_shape_word a Ha), (timestamp_shape_word b Hb),
    (timestamp_shape_word c Hc).
Qed.

Lemma word_prefix_inside (B : list ascii) : forall w x rest r,
  w ++ x :: rest = B ++ r ->
  forallb is_word B = true -> is_word x = false ->
  exists r0, w = B ++ r0.
Proof.
  induction B as [|b B IH]; intros w x rest r E HB Hx.
  - now exists w.
  - cbn [forallb] in HB. apply andb_true_iff in HB as [Hb HB].
    destruct w as [|c w]; cbn [app] in E; injection E as -> E.
    + congruence.
    + destruct (IH w x rest r E HB Hx) as [r0 ->]. now exists r0.
Qed.

Lemma re_match_validity_cut w x rest :
  forallb is_word w = true -> is_word x = false ->
  re_match validity_re (w ++ x :: rest) = re_match validity_re w.
Proof.
  intros Hw Hx. rewrite !re_match_validity.
  destruct (split_validity w) as [[[[a b] c] r]|] eqn:E.
  - apply split_validity_some in E as (-> & Ha & Hb & Hc).
    rewrite <- app_assoc.
    now rewrite (proj2 (split_validity_some _ a b c (r ++ x :: rest))).
  - destruct (split_validity (w ++ x :: rest)) as [[[[a b] c] r]|] eqn:E';
      [|reflexivity].
    apply split_validity_some in E' as (E' & Ha & Hb & Hc).
    destruct (word_prefix_inside _ _ _ _ _ E' (block_of_word a b c Ha Hb Hc) Hx)
      as [r0 ->].
    rewrite (proj2 (split_validity_some _ a b c r0)) in E by auto.
    discriminate E.
Qed.

Lemma star_k_validity_cut w x rest :
  forallb is_word w = true -> is_word x = false ->
  star_k is_word (re_match validity_re) (w ++ x :: rest) =
  star_k is_word (re_match validity_re) w.
Proof.
  intros Hw Hx. induction w as [|c w IH].
  - cbn [app star_k]. rewrite Hx.
    apply (re_match_validity_cut [] x rest eq_refl Hx).
  - cbn [forallb] in Hw. apply andb_true_iff in Hw as [Hc Hw].
    cbn [app star_k]. rewrite Hc, (IH Hw).
    destruct (star_k is_word (re_match validity_re) w); [reflexivity|].
    apply (re_match_validity_cut (c :: w) x rest); [|assumption].
    cbn [forallb]. now rewrite Hc, Hw.
Qed.

Lemma not_word_neq x c : is_word x = false -> is_word c = true -> Ascii.eqb c x = false.
Proof.
  intros Hx Hc. destruct (Ascii.eqb c x) eqn:E; [|reflexivity].
  apply Ascii.eqb_eq in E. congruence.
Qed.

(** The pattern reads the word characters at the front of the text and
    nothing after them. *)
Lemma re_match_default_cut w x rest :
  forallb is_word w = true -> is_word x = false ->
  re_match default_pattern (w ++ x :: rest) = re_match default_pattern w.
Proof.
  intros Hw Hx. rewrite !re_match_default.
  destruct w as [|c1 [|c2 [|c w]]]; cbn [app].
  - rewrite (not_word_neq x "S" Hx eq_refl). cbn [andb].
    now destruct rest as [|? [|? ?]].
  - rewrite (not_word_neq x "1" Hx eq_refl), andb_false_r. cbn [andb].
    now destruct rest.
  - now rewrite Hx, andb_false_r.
  - cbn [forallb] in Hw. rewrite !andb_true_iff in Hw.
    destruct Hw as (_ & _ & _ & Hw).
    destruct (_ && _); [|reflexivity].
    now apply star_k_validity_cut.
Qed.

Lemma list_ascii_of_string_app (s t : string) :
  list_ascii_of_string (s ++ t) = list_ascii_of_string s ++ list_ascii_of_string t.
Proof.
  induction s as [|c s IH]; [reflexivity|].
  simpl. now rewrite IH.
Qed.

(** X7. What comes after the first character that is not a word character
    (a file extension after a dot, for instance) is ignored: the longer
    identifier is matched when the shorter one is, and it is parsed to the
    same three datetimes. *)
Theorem get_validity_info_ignores_after_word_characters :
  forall (p rest : string) (x : ascii),
    forallb is_word (list_ascii_of_string p) = true ->
    is_word x = false ->
    matches (p ++ String x rest) = matches p
    /\ (forall r,
          get_validity_info [p] = Ok [r] ->
          get_validity_info [(p ++ String x rest)%string] =
          Ok [mk_ValidityInfo (p ++ String x rest) (generation_date r)
                (start_validity r) (stop_validity r)]).
Proof.
  intros p rest x Hp Hx.
  assert (E : re_match default_pattern (list_ascii_of_string (p ++ String x rest)) =
              re_match default_pattern (list_ascii_of_string p)).
  { rewrite list_ascii_of_string_app. cbn [list_ascii_of_string].
    now apply re_match_default_cut. }
  split; [unfold matches; now rewrite E|].
  intros r. unfold get_validity_info. cbn [get_validity_info_loop].
  unfold validity_info_of. rewrite E.
  destruct (re_match default_pattern (list_ascii_of_string p)) as [mobj|];
    [|discriminate].
  destruct (let* v := group mobj "generation_date" in strptime v) as [g|];
    cbn [bind]; [|discriminate].
  destruct (let* v := group mobj "start_validity" in strptime v) as [a|];
    cbn [bind]; [|discriminate].
  destruct (let* v := group mobj "stop_validity" in strptime v) as [b|];
    cbn [bind]; [|discriminate].
  now intros [= <-].
Qed.

(** * Properties of the client *)

Lemma get_validity_info_single p r :
  get_validity_info [p] = Ok [r] <-> validity_info_of p = Ok r.
Proof.
  rewrite get_validity_info_ok_iff. split.
  - intros H. now inversion H.
  - intros H. repeat constructor. assumption.
Qed.

Lemma Forall2_In_r {A B} (R : A -> B -> Prop) l1 l2 y :
  Forall2 R l1 l2 -> In y l2 -> exists x, In x l1 /\ R x y.
Proof.
  induction 1 as [|a b l1 l2 Hab _ IH]; intros Hy; [destruct Hy|].
  destruct Hy as [<- | Hy]; [exists a; split; [now left | assumption]|].
  destruct (IH Hy) as [x [Hx Hr]]. exists x. split; [now right | assumption].
Qed.

Lemma Forall2_In_l {A B} (R : A -> B -> Prop) l1 l2 x :
  Forall2 R l1 l2 -> In x l1 -> exists y, In y l2 /\ R x y.
Proof.
  induction 1 as [|a b l1 l2 Hab _ IH]; intros Hx; [destruct Hx|].
  destruct Hx as [<- | Hx]; [exists b; split; [now left | assumption]|].
  destruct (IH Hx) as [y [Hy Hr]]. exists y. split; [now right | assumption].
Qed.

(** What a returned selection is. *)
Lemma select_orbit_ok_inv :
  forall (products selected : list (string * entry)) (t0 t1 : datetime),
    ScihubGnssClient._select_orbit products t0 t1 = Ok selected ->
    selected <> []
    /\ exists id r,
         selected =
           List.filter (fun kv => String.eqb (identifier (snd kv)) id) products
         /\ (forall kv, In kv selected <->
                        In kv products /\ identifier (snd kv) = id)
         /\ get_validity_info [id] = Ok [r]
         /\ Covers t0 t1 r
         /\ (forall kv r', In kv products ->
               get_validity_info [identifier (snd kv)] = Ok [r'] ->
               Covers t0 t1 r' ->
               dt_le (generation_date r') (generation_date r)).
Proof.
  intros products selected t0 t1. unfold ScihubGnssClient._select_orbit.
  destruct (get_validity_info (map (fun kv => identifier (snd kv)) products))
    as [vi|] eqn:Ev; cbn [bind]; [|discriminate].
  destruct (lastval_cover t0 t1 vi) as [id|] eqn:El; cbn [bind]; [|discriminate].
  intros [= <-].
  apply get_validity_info_ok_iff in Ev.
  destruct (lastval_cover_ok_inv t0 t1 vi id El)
    as (pre & r & post & E & Hid & Hc & Hmax & _).
  assert (Hr : In r vi) by (rewrite E; apply in_elt).
  destruct (Forall2_In_r _ _ _ _ Ev Hr) as (p & Hp & Hpr).
  pose proof (validity_info_of_id p r Hpr) as Hpid.
  assert (Hmem : forall kv,
             In kv (List.filter (fun kv => String.eqb (identifier (snd kv)) id)
                                products)
             <-> In kv products /\ identifier (snd kv) = id).
  { intros kv. now rewrite filter_In, String.eqb_eq. }
  split.
  - apply in_map_iff in Hp as (kv & Hkv & Hin).
    intros E0. assert (Hf : In kv (List.filter
                 (fun kv => String.eqb (identifier (snd kv)) id) products)).
    { apply Hmem. split; [assumption | congruence]. }
    rewrite E0 in Hf. destruct Hf.
  - exists id, r. split; [reflexivity|]. split; [exact Hmem|].
    split; [apply get_validity_info_single; congruence|].
    split; [assumption|].
    intros kv r' Hkv Hr' Hc'. apply get_validity_info_single in Hr'.
    assert (Hm : In (identifier (snd kv))
                    (map (fun kv => identifier (snd kv)) products)).
    { apply in_map_iff. now exists kv. }
    destruct (Forall2_In_l _ _ _ _ Ev Hm) as (r2 & Hr2 & E2).
    assert (r2 = r') by congruence. subst r2. now apply Hmax.
Qed.

(** X8. A selection returned by [_select_orbit] is never empty: it is made
    of the entries of the answer, in their order, that carry one
    identifier; that identifier is parsed to a record that covers
    [(t0, t1)], and no covering record of the answer is generated later. *)
Theorem select_orbit_returns_latest_covering_entries :
  forall (products selected : list (string * entry)) (t0 t1 : datetime),
    ScihubGnssClient._select_orbit products t0 t1 = Ok selected ->
    selected <> []
    /\ exists id r,
         selected =
           List.filter (fun kv => String.eqb (identifier (snd kv)) id) products
         /\ (forall kv, In kv selected <->
                        In kv products /\ identifier (snd kv) = id)
         /\ get_validity_info [id] = Ok [r]
         /\ Covers t0 t1 r
         /\ (forall kv r', In kv products ->
               get_validity_info [identifier (snd kv)] = Ok [r'] ->
               Covers t0 t1 r' ->
               dt_le (generation_date r') (generation_date r)).
Proof. exact select_orbit_ok_inv. Qed.

(** X9. Every failure of [_select_orbit] is a [ValueError] or its subclass
    [ValidityError]: a handler for [ValueError] catches them all. *)
Theorem select_orbit_raises_value_errors :
  forall (products : list (string * entry)) (t0 t1 : datetime) (e : exception),
    ScihubGnssClient._select_orbit products t0 t1 = Raise e ->
    (type_of e = TValueError \/ type_of e = TValidityError)
    /\ isinstance e TValueError = true.
Proof.
  intros products t0 t1 e. unfold ScihubGnssClient._select_orbit.
  destruct (get_validity_info (map (fun kv => identifier (snd kv)) products))
    as [vi|e1] eqn:Ev; cbn [bind].
  - destruct (lastval_cover t0 t1 vi) as [id|e2] eqn:El; cbn [bind];
      [discriminate|].
    intros [= <-]. apply lastval_cover_raise in El as ->.
    split; [now right | reflexivity].
  - intros [= <-]. apply get_validity_info_loop_raise in Ev.
    unfold isinstance. rewrite Ev. split; [now left | reflexivity].
Qed.

(** X10. When the identifiers of the answer are all parsed and none of the
    records covers [(t0, t1)] (the empty answer included), [_select_orbit]
    raises the [ValidityError] of the selector; it does not return an empty
    selection. *)
Theorem select_orbit_no_cover_raises :
  forall (products : list (string * entry)) (t0 t1 : datetime),
    Forall (fun kv => exists r,
                get_validity_info [identifier (snd kv)] = Ok [r]
                /\ ~ Covers t0 t1 r) products ->
    ScihubGnssClient._select_orbit products t0 t1 =
    Raise (ValidityError (no_cover_msg t0 t1)).
Proof.
  intros products t0 t1 H. unfold ScihubGnssClient._select_orbit.
  assert (Hv : exists vi,
             get_validity_info (map (fun kv => identifier (snd kv)) products) = Ok vi
             /\ Forall (fun r => ~ Covers t0 t1 r) vi).
  { induction H as [|kv products (r & Hr & Hc) _ (vi & Evi & Hvi)].
    - exists []. split; [reflexivity | constructor].
    - exists (r :: vi). split; [|now constructor].
      change (map (fun kv => identifier (snd kv)) (kv :: products))
        with ([identifier (snd kv)] ++ map (fun kv => identifier (snd kv)) products).
      rewrite get_validity_info_concat, Hr, Evi. reflexivity. }
  destruct Hv as (vi & -> & Hvi). cbn [bind].
  destruct (lastval_cover t0 t1 vi) as [id|e] eqn:El.
  - destruct (lastval_cover_ok_inv t0 t1 vi id El) as (pre & r & post & -> & _ & Hc & _).
    rewrite List.Forall_forall in Hvi. exfalso. apply (Hvi r); [apply in_elt | assumption].
  - apply lastval_cover_raise in El as ->. reflexivity.
Qed.

(** The two ways [query_orbit] ends. *)
Lemma query_orbit_sends_one_well_formed_query_aux :
  forall (api_query : query -> result (list (string * entry)))
         (t0 t1 : datetime) (satellite_id product_type : string)
         (log : list query),
    let out :=
      ScihubGnssClient.query_orbit api_query t0 t1 satellite_id product_type log in
    (fst out = Raise AssertionError /\ snd out = log
     /\ ~ ((satellite_id = "S1A"%string \/ satellite_id = "S1B"%string)
           /\ (product_type = "AUX_POEORB"%string \/ product_type = "AUX_RESORB"%string)))
    \/ (exists q,
          snd out = log ++ [q] /\ fst out = api_query q
          /\ date q = (t0, t1) /\ producttype q = product_type
          /\ (satellite_id = "S1A"%string /\ platformserialidentifier q = "1A"%string
              \/ satellite_id = "S1B"%string /\ platformserialidentifier q = "1B"%string)
          /\ (product_type = "AUX_POEORB"%string \/ product_type = "AUX_RESORB"%string)).
Proof.
  intros api_query t0 t1 satellite_id product_type log.
  unfold ScihubGnssClient.query_orbit. cbv zeta.
  destruct (String.eqb satellite_id "S1A") eqn:Ea;
    [|destruct (String.eqb satellite_id "S1B") eqn:Eb]; cbn [orb negb].
  3: { left. split; [reflexivity|]. split; [reflexivity|].
       apply String.eqb_neq in Ea, Eb. intros [[?|?] _]; congruence. }
  all: destruct (String.eqb product_type "AUX_POEORB") eqn:Ep;
    [|destruct (String.eqb product_type "AUX_RESORB") eqn:Er]; cbn [orb negb fst snd].
  all: try (left; split; [reflexivity|]; split; [reflexivity|];
            apply String.eqb_neq in Ep, Er; intros [_ [?|?]]; congruence).
  all: right; eexists; split; [reflexivity|]; split; [reflexivity|];
    split; [reflexivity|]; split; [reflexivity|];
    rewrite ?String.eqb_eq in *; subst; cbn; auto.
Qed.

(** X11. [query_orbit] sends one query, built from its arguments, when the
    satellite is S1A or S1B and the product type is AUX_POEORB or
    AUX_RESORB, and returns the answer of the catalog as it is; otherwise
    it stops at an assertion and sends nothing.  A query sent is always for
    the platform 1A or 1B. *)
Theorem query_orbit_sends_one_well_formed_query :
  forall (api_query : query -> result (list (string * entry)))
         (t0 t1 : datetime) (satellite_id product_type : string)
         (log : list query),
    let out :=
      ScihubGnssClient.query_orbit api_query t0 t1 satellite_id product_type log in
    (fst out = Raise AssertionError /\ snd out = log
     /\ ~ ((satellite_id = "S1A"%string \/ satellite_id = "S1B"%string)
           /\ (product_type = "AUX_POEORB"%string \/ product_type = "AUX_RESORB"%string)))
    \/ (exists q,
          snd out = log ++ [q] /\ fst out = api_query q
          /\ date q = (t0, t1) /\ producttype q = product_type
          /\ (satellite_id = "S1A"%string /\ platformserialidentifier q = "1A"%string
              \/ satellite_id = "S1B"%string /\ platformserialidentifier q = "1B"%string)
          /\ (product_type = "AUX_POEORB"%string \/ product_type = "AUX_RESORB"%string)).
Proof. exact query_orbit_sends_one_well_formed_query_aux. Qed.

(** The two ways [query_orbit_for_product] ends. *)
Lemma query_orbit_for_product_at_most_one_query_aux :
  forall (S1Product_of_str : string -> result S1Product)
         (api_query : query -> result (list (string * entry)))
         (product : string + S1Product) (product_type : option string)
         (t0_margin t1_margin : option timedelta) (log : list query),
    let out :=
      ScihubGnssClient.query_orbit_for_product S1Product_of_str api_query
        product product_type t0_margin t1_margin log in
    (snd out = log /\ exists e, fst out = Raise e)
    \/ (exists p q,
          match product with inl s => S1Product_of_str s | inr p' => Ok p' end = Ok p
          /\ snd out = log ++ [q]
          /\ (platformserialidentifier q = "1A"%string \/ platformserialidentifier q = "1B"%string)
          /\ (producttype q = "AUX_POEORB"%string \/ producttype q = "AUX_RESORB"%string)
          /\ fst out =
             match api_query q with
             | Raise e => Raise e
             | Ok products =>
                 ScihubGnssClient._select_orbit products (start_time p) (stop_time p)
             end).
Proof.
  intros S1Product_of_str api_query product product_type t0_margin t1_margin log.
  unfold ScihubGnssClient.query_orbit_for_product. cbv zeta.
  destruct (match product with inl s => S1Product_of_str s | inr p' => Ok p' end)
    as [p|e] eqn:Ep; [|left; cbn; eauto].
  destruct (datetime_sub _ _) as [q0|e]; [|left; cbn; eauto].
  destruct (datetime_add _ _) as [q1|e]; [|left; cbn; eauto].
  pose proof (query_orbit_sends_one_well_formed_query_aux api_query q0 q1 (mission p)
                (default "AUX_POEORB"%string product_type) log) as H.
  destruct (ScihubGnssClient.query_orbit api_query q0 q1 (mission p)
              (default "AUX_POEORB"%string product_type) log) as [r log'].
  cbn [fst snd] in *.
  destruct H as [(-> & -> & _) | (q & -> & -> & _ & Hpt & Hs & Ht)].
  - left. cbn. eauto.
  - right. exists p, q. split; [reflexivity|]. split; [reflexivity|].
    split; [destruct Hs as [[_ ?]|[_ ?]]; auto|].
    split; [rewrite Hpt; exact Ht|].
    destruct (api_query q); reflexivity.
Qed.

(** X12. Whatever its arguments, [query_orbit_for_product] sends at most
    one query.  When it fails before the catalog is asked, nothing is sent;
    otherwise the query is for the platform 1A or 1B and a product type the
    client accepts, an error of the catalog is returned as it is, and an
    answer goes to [_select_orbit] with the window of the product. *)
Theorem query_orbit_for_product_at_most_one_query :
  forall (S1Product_of_str : string -> result S1Product)
         (api_query : query -> result (list (string * entry)))
         (product : string + S1Product) (product_type : option string)
         (t0_margin t1_margin : option timedelta) (log : list query),
    let out :=
      ScihubGnssClient.query_orbit_for_product S1Product_of_str api_query
        product product_type t0_margin t1_margin log in
    (snd out = log /\ exists e, fst out = Raise e)
    \/ (exists p q,
          match product with inl s => S1Product_of_str s | inr p' => Ok p' end = Ok p
          /\ snd out = log ++ [q]
          /\ (platformserialidentifier q = "1A"%string \/ platformserialidentifier q = "1B"%string)
          /\ (producttype q = "AUX_POEORB"%string \/ producttype q = "AUX_RESORB"%string)
          /\ fst out =
             match api_query q with
             | Raise e => Raise e
             | Ok products =>
                 ScihubGnssClient._select_orbit products (start_time p) (stop_time p)
             end).
Proof. exact query_orbit_for_product_at_most_one_query_aux. Qed.

(** * Properties of the script *)

Section Script.
Context (S1Product_of_str : string -> result S1Product)
        (api_query : query -> result (list (string * entry))).

(** The client on a product name, with the arguments the script gives. *)
Let ask (product : string) (log : list query) :=
  ScihubGnssClient.query_orbit_for_product S1Product_of_str api_query
    (inl product) None None None log.

(** The log is only extended, and the outcome does not depend on it. *)
Lemma ask_frame product log :
  ask product log = (fst (ask product []), log ++ snd (ask product [])).
Proof.
  unfold ask, ScihubGnssClient.query_orbit_for_product. cbv zeta.
  destruct (S1Product_of_str product) as [p|e]; [|cbn; now rewrite app_nil_r].
  destruct (datetime_sub _ _) as [q0|e]; [|cbn; now rewrite app_nil_r].
  destruct (datetime_add _ _) as [q1|e]; [|cbn; now rewrite app_nil_r].
  unfold ScihubGnssClient.query_orbit.
  destruct (negb _); [cbn; now rewrite app_nil_r|].
  destruct (negb _); [cbn; now rewrite app_nil_r|].
  reflexivity.
Qed.

(** A call that returns a selection has sent one query. *)
Lemma ask_ok_one_query product sel qs :
  ask product [] = (Ok sel, qs) -> exists qu, qs = [qu].
Proof.
  intros H.
  pose proof (query_orbit_for_product_at_most_one_query_aux S1Product_of_str
                api_query (inl product) None None None []) as Hq.
  cbv zeta in Hq. fold (ask product []) in Hq. rewrite H in Hq.
  cbn [fst snd] in Hq.
  destruct Hq as [(_ & e & He) | (p & q & _ & -> & _)]; [discriminate He|].
  now exists q.
Qed.

(** The keys of a dictionary after an assignment. *)
Lemma dict_set_keys d k v :
  map fst (dict_set d k v) =
  if existsb (String.eqb k) (map fst d) then map fst d else map fst d ++ [k].
Proof.
  induction d as [|[k' v'] d IH]; [reflexivity|].
  cbn [dict_set map fst existsb].
  rewrite (String.eqb_sym k k').
  destruct (String.eqb k' k) eqn:E; cbn [orb map fst]; [reflexivity|].
  rewrite IH. now destruct (existsb (String.eqb k) (map fst d)).
Qed.

Lemma existsb_eqb_In k (l : list string) :
  existsb (String.eqb k) l = true <-> In k l.
Proof.
  rewrite existsb_exists. split.
  - intros (x & Hx & E). apply String.eqb_eq in E. now subst.
  - intros H. exists k. split; [assumption | apply String.eqb_refl].
Qed.

Lemma dict_set_NoDup d k v :
  List.NoDup (map fst d) -> List.NoDup (map fst (dict_set d k v)).
Proof.
  intros H. rewrite dict_set_keys.
  destruct (existsb (String.eqb k) (map fst d)) eqn:E; [assumption|].
  apply NoDup_app; [assumption | repeat constructor; intros [] |].
  intros x Hx [<- | []].
  apply existsb_eqb_In in Hx. congruence.
Qed.

Lemma dict_update_NoDup sel : forall d,
  List.NoDup (map fst d) -> List.NoDup (map fst (dict_update d sel)).
Proof.
  unfold dict_update.
  induction sel as [|[k v] sel IH]; intros d H; cbn [fold_left]; [assumption|].
  apply IH. now apply dict_set_NoDup.
Qed.

(** Assigning an item the dictionary has changes nothing. *)
Lemma dict_set_same d k v :
  List.NoDup (map fst d) -> In (k, v) d -> dict_set d k v = d.
Proof.
  induction d as [|[k' v'] d IH]; intros Hnd Hin; [destruct Hin|].
  cbn [dict_set]. cbn [map fst] in Hnd. inversion Hnd as [|? ? Hk Hnd']; subst.
  destruct Hin as [[= -> ->] | Hin].
  - now rewrite String.eqb_refl.
  - destruct (String.eqb k' k) eqn:E.
    + apply String.eqb_eq in E. subst. exfalso. apply Hk.
      apply in_map_iff. now exists (k, v).
    + now rewrite IH.
Qed.

Lemma dict_update_same sel : forall d,
  List.NoDup (map fst d) -> (forall kv, In kv sel -> In kv d) ->
  dict_update d sel = d.
Proof.
  unfold dict_update.
  induction sel as [|[k v] sel IH]; intros d Hnd Hin; cbn [fold_left]; [reflexivity|].
  cbn [fst snd]. rewrite dict_set_same; [|assumption|apply Hin; now left].
  apply IH; [assumption|]. intros kv Hkv. apply Hin. now right.
Qed.

(** Filling an empty dictionary from a dictionary copies it. *)
Lemma dict_update_fresh sel : forall d,
  List.NoDup (map fst (d ++ sel)) -> dict_update d sel = d ++ sel.
Proof.
  unfold dict_update.
  induction sel as [|[k v] sel IH]; intros d Hnd; cbn [fold_left].
  - now rewrite app_nil_r.
  - cbn [fst snd].
    assert (Hset : dict_set d k v = d ++ [(k, v)]).
    { rewrite map_app in Hnd. cbn [map fst] in Hnd.
      apply NoDup_remove_2 in Hnd.
      assert (Hk : ~ In k (map fst d)) by (intros H; apply Hnd, in_or_app; now left).
      clear -Hk. induction d as [|[k' v'] d IHd]; [reflexivity|].
      cbn [dict_set app]. cbn [map fst] in Hk.
      destruct (String.eqb k' k) eqn:E.
      - apply String.eqb_eq in E. subst. exfalso. apply Hk. now left.
      - rewrite IHd; [reflexivity|]. intros H. apply Hk. now right. }
    rewrite Hset, IH, <- app_assoc; [reflexivity|].
    now rewrite <- app_assoc.
Qed.

(** The loop: one call of the client per product, in order; it stops at the
    first error. *)
Lemma main_loop_ok products : forall d log d' log',
  main_loop S1Product_of_str api_query products d log = (Ok d', log') ->
  List.NoDup (map fst d) ->
  List.NoDup (map fst d')
  /\ exists qs,
       log' = log ++ qs
       /\ Forall2 (fun product qu =>
                     exists sel, ask product [] = (Ok sel, [qu])) products qs.
Proof.
  induction products as [|product products IH]; intros d log d' log' H Hnd;
    cbn [main_loop] in H.
  - injection H as <- <-. split; [assumption|].
    exists []. split; [now rewrite app_nil_r | constructor].
  - fold (ask product log) in H. rewrite ask_frame in H.
    destruct (ask product []) as [[sel|e] qs] eqn:Ea; cbn [fst snd] in H;
      [|discriminate H].
    destruct (ask_ok_one_query _ _ _ Ea) as [qu ->].
    apply IH in H as (Hnd' & qs' & -> & HF); [|now apply dict_update_NoDup].
    split; [assumption|].
    exists (qu :: qs'). split; [now rewrite <- app_assoc|].
    constructor; [now exists sel | assumption].
Qed.

Lemma main_loop_first_failure pre : forall product post d log e qs,
  Forall (fun p => exists sel, fst (ask p []) = Ok sel) pre ->
  ask product [] = (Raise e, qs) ->
  exists log',
    main_loop S1Product_of_str api_query (pre ++ product :: post) d log =
      (Raise e, log')
    /\ List.length log' = (List.length log + List.length pre + List.length qs)%nat.
Proof.
  induction pre as [|p pre IH]; intros product post d log e qs Hpre Hp;
    cbn [app main_loop].
  - fold (ask product log). rewrite ask_frame, Hp. cbn [fst snd].
    exists (log ++ qs). split; [reflexivity|]. rewrite length_app. cbn. lia.
  - inversion Hpre as [|? ? [sel Hsel] Hpre']; subst.
    fold (ask p log). rewrite ask_frame.
    destruct (ask p []) as [r qp] eqn:Ea. cbn [fst snd] in *. subst r.
    destruct (ask_ok_one_query _ _ _ Ea) as [qu ->].
    destruct (IH product post (dict_update d sel) (log ++ [qu]) e qs Hpre' Hp)
      as (log' & -> & Hlen).
    exists log'. split; [reflexivity|]. rewrite Hlen, length_app. cbn. lia.
Qed.
End Script.

(** X13. When the script reaches [download_all], it has sent one query per
    product, in the order of the products, each of them answered with a
    selection, and the dictionary it hands over has as many entries as there
    are products, under distinct keys. *)
Theorem main_queries_each_product_once :
  forall (S1Product_of_str : string -> result S1Product)
         (api_query : query -> result (list (string * entry)))
         (product : string) (products : list string)
         (d : list (string * entry)) (log : list query),
    main S1Product_of_str api_query product products = (Ok d, log) ->
    Forall2 (fun name qu =>
               exists sel,
                 ScihubGnssClient.query_orbit_for_product S1Product_of_str
                   api_query (inl name) None None None [] = (Ok sel, [qu]))
            (product :: products) log
    /\ List.length d = List.length (product :: products)
    /\ List.NoDup (map fst d).
Proof.
  intros S1Product_of_str api_query product products d log. unfold main.
  destruct (main_loop S1Product_of_str api_query (product :: products) [] [])
    as [[d'|e] log'] eqn:E; [|discriminate].
  destruct (Nat.eqb _ _) eqn:El; [|discriminate].
  intros [= <- <-]. apply Nat.eqb_eq in El.
  apply main_loop_ok in E as (Hnd & qs & -> & HF); [|constructor].
  cbn [app]. auto.
Qed.

(** X14. Naming one product twice stops the script at its assertion, after
    two queries and before [download_all], unless the selection for that
    product has exactly two entries: the second answer adds no key to the
    dictionary. *)
Theorem main_same_product_twice :
  forall (S1Product_of_str : string -> result S1Product)
         (api_query : query -> result (list (string * entry)))
         (product : string) (sel : list (string * entry)) (qu : query),
    ScihubGnssClient.query_orbit_for_product S1Product_of_str api_query
      (inl product) None None None [] = (Ok sel, [qu]) ->
    List.NoDup (map fst sel) ->
    List.length sel <> 2%nat ->
    main S1Product_of_str api_query product [product] =
    (Raise AssertionError, [qu; qu]).
Proof.
  intros S1Product_of_str api_query product sel qu H Hnd Hlen.
  unfold main. cbn [main_loop]. rewrite H.
  rewrite (ask_frame S1Product_of_str api_query product [qu]), H. cbn [fst snd app].
  rewrite (dict_update_fresh sel []) by assumption. cbn [app].
  rewrite (dict_update_same sel sel) by auto.
  destruct (Nat.eqb (List.length sel) (List.length [product; product])) eqn:E;
    [|reflexivity].
  apply Nat.eqb_eq in E. cbn in E. contradiction.
Qed.

(** X15. The script stops at the first product for which the client fails,
    with the error of the client: the products after it are not queried, so
    the log has one query per product in front of it and what the failing
    call has sent. *)
Theorem main_stops_at_first_failure :
  forall (S1Product_of_str : string -> result S1Product)
         (api_query : query -> result (list (string * entry)))
         (product : string) (products pre post : list string) (failing : string)
         (e : exception) (qs : list query),
    product :: products = pre ++ failing :: post ->
    Forall (fun name =>
              exists sel,
                fst (ScihubGnssClient.query_orbit_for_product S1Product_of_str
                       api_query (inl name) None None None []) = Ok sel) pre ->
    ScihubGnssClient.query_orbit_for_product S1Product_of_str api_query
      (inl failing) None None None [] = (Raise e, qs) ->
    exists log,
      main S1Product_of_str api_query product products = (Raise e, log)
      /\ List.length log = (List.length pre + List.length qs)%nat.
Proof.
  intros S1Product_of_str api_query product products pre post failing e qs
         Hsplit Hpre Hfail.
  unfold main. rewrite Hsplit.
  destruct (main_loop_first_failure S1Product_of_str api_query pre failing post
              [] [] e qs Hpre Hfail) as (log' & -> & Hlen).
  exists log'. split; [reflexivity | exact Hlen].
Qed.

(** * The calendar *)

Lemma days_before_month_table y :
  let L := if is_leap y then 1 else 0 in
  days_before_month y 1 = 0 /\ days_before_month y 2 = 31
  /\ days_before_month y 3 = 59 + L /\ days_before_month y 4 = 90 + L
  /\ days_before_month y 5 = 120 + L /\ days_before_month y 6 = 151 + L
  /\ days_before_month y 7 = 181 + L /\ days_before_month y 8 = 212 + L
  /\ days_before_month y 9 = 243 + L /\ days_before_month y 10 = 273 + L
  /\ days_before_month y 11 = 304 + L /\ days_before_month y 12 = 334 + L
  /\ days_before_month y 13 = 365 + L.
Proof.
  unfold days_before_month, days_in_month. cbn.
  destruct (is_leap y); cbn; repeat split; reflexivity.
Qed.

Lemma days_in_month_table y m :
  1 <= m <= 12 ->
  days_before_month y (m + 1) = days_before_month y m + days_in_month y m.
Proof.
  intros H.
  assert (Hm : m = 1 \/ m = 2 \/ m = 3 \/ m = 4 \/ m = 5 \/ m = 6 \/ m = 7
               \/ m = 8 \/ m = 9 \/ m = 10 \/ m = 11 \/ m = 12) by lia.
  pose proof (days_before_month_table y) as T. cbv zeta in T.
  destruct T as (T1 & T2 & T3 & T4 & T5 & T6 & T7 & T8 & T9 & T10 & T11 & T12 & T13).
  repeat (destruct Hm as [-> | Hm]); try subst m;
    match goal with
    | |- days_before_month y (?a + 1) = _ =>
        let v := eval compute in (a + 1) in change (a + 1) with v
    end;
    rewrite ?T1, ?T2, ?T3, ?T4, ?T5, ?T6, ?T7, ?T8, ?T9, ?T10, ?T11, ?T12, ?T13;
    unfold days_in_month; simpl; destruct (is_leap y); lia.
Qed.

Lemma is_leap_spec y :
  is_leap y = true <-> y mod 4 = 0 /\ (y mod 100 <> 0 \/ y mod 400 = 0).
Proof.
  unfold is_leap.
  rewrite andb_true_iff, orb_true_iff, negb_true_iff, !Z.eqb_eq, Z.eqb_neq.
  reflexivity.
Qed.

Lemma days_before_year_ord n :
  let n' := n - 1 in
  let n100 := n' mod 146097 / 36524 in
  let n4 := n' mod 146097 mod 36524 / 1461 in
  let n1 := n' mod 146097 mod 36524 mod 1461 / 365 in
  let r := n' mod 146097 mod 36524 mod 1461 mod 365 in
  let y := n' / 146097 * 400 + 1 + n100 * 100 + n4 * 4 + n1 in
  n1 <> 4 -> n100 <> 4 ->
  days_before_year y + r + 1 = n.
Proof.
  cbv zeta. unfold days_before_year. intros H1 H2.
  Z.div_mod_to_equations. lia.
Qed.

Lemma days_before_year_ord_edge n :
  let n' := n - 1 in
  let n100 := n' mod 146097 / 36524 in
  let n4 := n' mod 146097 mod 36524 / 1461 in
  let n1 := n' mod 146097 mod 36524 mod 1461 / 365 in
  let y := n' / 146097 * 400 + 1 + n100 * 100 + n4 * 4 + n1 in
  n1 = 4 \/ n100 = 4 ->
  is_leap (y - 1) = true /\ days_before_year (y - 1) + 366 = n.
Proof.
  cbv zeta. intros H. rewrite is_leap_spec. unfold days_before_year.
  Z.div_mod_to_equations. lia.
Qed.

(** Turning a day number into a date and back gives the day number. *)
Lemma ymd2ord_ord2ymd n :
  let '(y, m, d) := ord2ymd n in ymd2ord y m d = n.
Proof.
  unfold ord2ymd. cbv zeta.
  pose proof (days_before_year_ord n) as Hmain.
  pose proof (days_before_year_ord_edge n) as Hedge. cbv zeta in Hmain, Hedge.
  set (n100 := (n - 1) mod 146097 / 36524) in *.
  set (n4 := (n - 1) mod 146097 mod 36524 / 1461) in *.
  set (n1 := (n - 1) mod 146097 mod 36524 mod 1461 / 365) in *.
  set (r := (n - 1) mod 146097 mod 36524 mod 1461 mod 365) in *.
  set (y := (n - 1) / 146097 * 400 + 1 + n100 * 100 + n4 * 4 + n1) in *.
  destruct ((n1 =? 4) || (n100 =? 4)) eqn:E.
  - apply orb_true_iff in E. rewrite !Z.eqb_eq in E.
    destruct (Hedge E) as [Hl Hd]. unfold ymd2ord.
    pose proof (days_before_month_table (y - 1)) as T. cbv zeta in T.
    rewrite Hl in T. lia.
  - apply orb_false_iff in E. rewrite !Z.eqb_neq in E. destruct E as [E1 E2].
    specialize (Hmain E1 E2).
    destruct (r <? days_before_month y (Z.shiftr (r + 50) 5)) eqn:Er.
    + unfold ymd2ord.
      assert (Hr : 0 <= r < 365) by (subst r; apply Z.mod_pos_bound; lia).
      assert (Hm : 1 <= Z.shiftr (r + 50) 5 - 1 <= 12).
      { apply Z.ltb_lt in Er. revert Er.
        rewrite Z.shiftr_div_pow2 by lia. change (2 ^ 5) with 32. intros Er.
        destruct (Z_le_gt_dec 2 ((r + 50) / 32)) as [Hlow | Hlow];
          [Z.div_mod_to_equations; lia|].
        assert (Hone : (r + 50) / 32 = 1) by (Z.div_mod_to_equations; lia).
        rewrite Hone in Er.
        pose proof (days_before_month_table y) as T. cbv zeta in T. lia. }
      pose proof (days_in_month_table y _ Hm) as Hs.
      replace (Z.shiftr (r + 50) 5 - 1 + 1) with (Z.shiftr (r + 50) 5) in Hs by lia.
      lia.
    + unfold ymd2ord. lia.
Qed.

Lemma to_micro_of_micro t : to_micro (of_micro t) = t.
Proof.
  unfold of_micro. pose proof (ymd2ord_ord2ymd (t / 86400000000)) as H.
  destruct (ord2ymd (t / 86400000000)) as [[y m] d].
  unfold to_micro. cbn [year month day hour minute second microsecond].
  rewrite H. Z.div_mod_to_equations. lia.
Qed.

Lemma datetime_ok_spec d :
  datetime_ok d = true <->
  1 <= year d <= 9999 /\ 1 <= month d <= 12 /\
  1 <= day d <= days_in_month (year d) (month d) /\
  0 <= hour d <= 23 /\ 0 <= minute d <= 59 /\ 0 <= second d <= 59 /\
  0 <= microsecond d <= 999999.
Proof.
  unfold datetime_ok. rewrite !andb_true_iff, !Z.leb_le. tauto.
Qed.

(** The date of a day number is a date of the calendar. *)
Lemma ord2ymd_valid n :
  let '(y, m, d) := ord2ymd n in
  1 <= m <= 12 /\ 1 <= d <= days_in_month y m.
Proof.
  unfold ord2ymd. cbv zeta.
  set (n100 := (n - 1) mod 146097 / 36524).
  set (n4 := (n - 1) mod 146097 mod 36524 / 1461).
  set (n1 := (n - 1) mod 146097 mod 36524 mod 1461 / 365).
  set (r := (n - 1) mod 146097 mod 36524 mod 1461 mod 365).
  set (y := (n - 1) / 146097 * 400 + 1 + n100 * 100 + n4 * 4 + n1).
  assert (Hr : 0 <= r < 365) by (subst r; apply Z.mod_pos_bound; lia).
  clearbody r y n1 n100 n4.
  destruct ((n1 =? 4) || _); [unfold days_in_month; cbn; lia|].
  rewrite Z.shiftr_div_pow2 by lia. change (2 ^ 5) with 32.
  set (m := (r + 50) / 32).
  assert (Hm : m = 1 \/ m = 2 \/ m = 3 \/ m = 4 \/ m = 5 \/ m = 6 \/ m = 7
               \/ m = 8 \/ m = 9 \/ m = 10 \/ m = 11 \/ m = 12)
    by (subst m; Z.div_mod_to_equations; lia).
  assert (Hrm : 32 * m - 50 <= r <= 32 * m - 19)
    by (subst m; Z.div_mod_to_equations; lia).
  clearbody m.
  pose proof (days_before_month_table y) as T. cbv zeta in T.
  destruct T as (T1 & T2 & T3 & T4 & T5 & T6 & T7 & T8 & T9 & T10 & T11 & T12 & T13).
  repeat (destruct Hm as [-> | Hm]); try subst m;
    rewrite ?T1, ?T2, ?T3, ?T4, ?T5, ?T6, ?T7, ?T8, ?T9, ?T10, ?T11, ?T12, ?T13;
    match goal with
    | |- context [?a - 1] => let v := eval compute in (a - 1) in change (a - 1) with v
    end;
    destruct (is_leap y) eqn:EL;
    match goal with |- context [if ?b then _ else _] => destruct b eqn:E end;
    simpl; unfold days_in_month; simpl; rewrite ?EL;
    rewrite ?Z.ltb_lt, ?Z.ltb_ge in E; lia.
Qed.

Lemma is_leap_false y :
  is_leap y = false <-> ~ (y mod 4 = 0 /\ (y mod 100 <> 0 \/ y mod 400 = 0)).
Proof. rewrite <- is_leap_spec. symmetry. apply not_true_iff_false. Qed.

Lemma days_before_year_succ y :
  days_before_year (y + 1) =
  days_before_year y + 365 + (if is_leap y then 1 else 0).
Proof.
  destruct (is_leap y) eqn:E;
    [apply is_leap_spec in E | apply is_leap_false in E];
    unfold days_before_year; Z.div_mod_to_equations; lia.
Qed.

Lemma days_before_year_mono y y' :
  y <= y' -> days_before_year y <= days_before_year y'.
Proof. intros H. unfold days_before_year. Z.div_mod_to_equations. lia. Qed.

(** Within a year, a later month starts after every day of an earlier
    one. *)
Lemma days_before_month_lt y m d m' :
  1 <= m -> m < m' -> m' <= 12 -> d <= days_in_month y m ->
  days_before_month y m + d <= days_before_month y m'.
Proof.
  intros H1 H2 H3 Hd.
  assert (Hm : m = 1 \/ m = 2 \/ m = 3 \/ m = 4 \/ m = 5 \/ m = 6 \/ m = 7
               \/ m = 8 \/ m = 9 \/ m = 10 \/ m = 11) by lia.
  assert (Hm' : m' = 2 \/ m' = 3 \/ m' = 4 \/ m' = 5 \/ m' = 6 \/ m' = 7
               \/ m' = 8 \/ m' = 9 \/ m' = 10 \/ m' = 11 \/ m' = 12) by lia.
  pose proof (days_before_month_table y) as T. cbv zeta in T.
  destruct T as (T1 & T2 & T3 & T4 & T5 & T6 & T7 & T8 & T9 & T10 & T11 & T12 & T13).
  unfold days_in_month in Hd.
  repeat (destruct Hm as [-> | Hm]); try subst m; simpl in Hd;
    repeat (destruct Hm' as [-> | Hm']); try subst m'; try lia;
    rewrite ?T1, ?T2, ?T3, ?T4, ?T5, ?T6, ?T7, ?T8, ?T9, ?T10, ?T11, ?T12;
    destruct (is_leap y); lia.
Qed.

Lemma days_before_month_nonneg y m : 1 <= m <= 12 -> 0 <= days_before_month y m.
Proof.
  intros H.
  assert (Hm : m = 1 \/ m = 2 \/ m = 3 \/ m = 4 \/ m = 5 \/ m = 6 \/ m = 7
               \/ m = 8 \/ m = 9 \/ m = 10 \/ m = 11 \/ m = 12) by lia.
  pose proof (days_before_month_table y) as T. cbv zeta in T.
  destruct T as (T1 & T2 & T3 & T4 & T5 & T6 & T7 & T8 & T9 & T10 & T11 & T12 & T13).
  repeat (destruct Hm as [-> | Hm]); try subst m;
    rewrite ?T1, ?T2, ?T3, ?T4, ?T5, ?T6, ?T7, ?T8, ?T9, ?T10, ?T11, ?T12;
    destruct (is_leap y); lia.
Qed.

Lemma days_in_year y m d :
  1 <= m <= 12 -> d <= days_in_month y m ->
  days_before_month y m + d <= 365 + (if is_leap y then 1 else 0).
Proof.
  intros H Hd.
  pose proof (days_in_month_table y 12 ltac:(lia)) as H12.
  pose proof (days_before_month_table y) as T. cbv zeta in T.
  destruct T as (_ & _ & _ & _ & _ & _ & _ & _ & _ & _ & _ & T12 & T13).
  change (12 + 1) with 13 in H12.
  destruct (Z.eq_dec m 12) as [-> | Hne]; [lia|].
  pose proof (days_before_month_lt y m d 12 ltac:(lia) ltac:(lia) ltac:(lia) Hd).
  assert (0 <= days_in_month y 12) by (unfold days_in_month; cbn; lia).
  lia.
Qed.

(** The day number grows with the date. *)
Lemma ymd2ord_lt y m d y' m' d' :
  1 <= m <= 12 -> 1 <= d <= days_in_month y m ->
  1 <= m' <= 12 -> 1 <= d' <= days_in_month y' m' ->
  y < y' \/ y = y' /\ (m < m' \/ m = m' /\ d < d') ->
  ymd2ord y m d < ymd2ord y' m' d'.
Proof.
  intros Hm Hd Hm' Hd' [Hy | [<- [Hlt | [<- Hlt]]]]; unfold ymd2ord.
  - pose proof (days_in_year y m d Hm ltac:(lia)).
    pose proof (days_before_year_succ y).
    pose proof (days_before_year_mono (y + 1) y' ltac:(lia)).
    pose proof (days_before_month_nonneg y' m' Hm'). lia.
  - pose proof (days_before_month_lt y m d m' ltac:(lia) Hlt ltac:(lia) ltac:(lia)).
    lia.
  - lia.
Qed.

(** The order of the fields is the order of the instants. *)
Lemma to_micro_lt x y :
  datetime_ok x = true -> datetime_ok y = true ->
  dt_lt x y -> to_micro x < to_micro y.
Proof.
  rewrite !datetime_ok_spec.
  intros (Hy1 & Hm1 & Hd1 & Hh1 & Hn1 & Hs1 & Hu1)
         (Hy2 & Hm2 & Hd2 & Hh2 & Hn2 & Hs2 & Hu2) Hlt.
  unfold to_micro, dt_lt in *.
  assert (Hord : ymd2ord (year x) (month x) (day x) < ymd2ord (year y) (month y) (day y)
                 \/ (year x = year y /\ month x = month y /\ day x = day y)).
  { destruct (Z.eq_dec (year x) (year y)) as [Ey|Ney];
      [destruct (Z.eq_dec (month x) (month y)) as [Em|Nem];
        [destruct (Z.eq_dec (day x) (day y)) as [Ed|Ned]|]|].
    - right. auto.
    - left. apply ymd2ord_lt; try assumption. lia.
    - left. apply ymd2ord_lt; try assumption. lia.
    - left. apply ymd2ord_lt; try assumption. lia. }
  destruct Hord as [Hord | (Ey & Em & Ed)].
  - lia.
  - rewrite Ey, Em, Ed in *. lia.
Qed.

Lemma to_micro_le_iff x y :
  datetime_ok x = true -> datetime_ok y = true ->
  (dt_le x y <-> to_micro x <= to_micro y).
Proof.
  intros Hx Hy. split.
  - intros [H | ->]; [apply to_micro_lt in H; try assumption; lia | lia].
  - intros H. destruct (dt_le_total x y) as [Hle | [Hlt | ->]];
      [assumption | | apply dt_le_refl].
    apply to_micro_lt in Hlt; try assumption. lia.
Qed.

Lemma ord2ymd_year n :
  1 <= n <= 3652059 ->
  let '(y, m, d) := ord2ymd n in 1 <= y <= 9999.
Proof.
  intros Hn. pose proof (ymd2ord_ord2ymd n) as Hinv.
  pose proof (ord2ymd_valid n) as Hval.
  destruct (ord2ymd n) as [[y m] d]. destruct Hval as [Hm Hd].
  unfold ymd2ord in Hinv.
  pose proof (days_in_year y m d Hm ltac:(lia)) as Hup.
  pose proof (days_before_month_nonneg y m Hm) as Hlow.
  assert (Hl : (if is_leap y then 1 else 0) <= 1) by (destruct (is_leap y); lia).
  split.
  - destruct (Z_lt_le_dec y 1) as [Hy|Hy]; [|assumption].
    pose proof (days_before_year_mono y 0 ltac:(lia)) as H0.
    change (days_before_year 0) with (-366) in H0. lia.
  - destruct (Z_lt_le_dec 9999 y) as [Hy|Hy]; [|assumption].
    pose proof (days_before_year_mono 10000 y ltac:(lia)) as H0.
    change (days_before_year 10000) with 3652059 in H0. lia.
Qed.

(** An instant of the calendar is the instant of a datetime. *)
Lemma of_micro_ok t :
  1 <= t / 86400000000 <= 3652059 -> datetime_ok (of_micro t) = true.
Proof.
  intros Ht. unfold of_micro.
  pose proof (ord2ymd_valid (t / 86400000000)) as Hval.
  pose proof (ord2ymd_year (t / 86400000000) Ht) as Hy.
  destruct (ord2ymd (t / 86400000000)) as [[y m] d]. destruct Hval as [Hm Hd].
  apply datetime_ok_spec.
  cbn [year month day hour minute second microsecond].
  repeat split; try lia; Z.div_mod_to_equations; lia.
Qed.

Lemma add_datetime_timedelta_ok d delta factor q :
  add_datetime_timedelta d delta factor = Ok q ->
  to_micro q = to_micro d + factor * timedelta_micro delta
  /\ datetime_ok q = true.
Proof.
  unfold add_datetime_timedelta. cbv zeta.
  destruct (_ && _) eqn:E; [|discriminate].
  intros [= <-]. rewrite andb_true_iff, !Z.leb_le in E.
  split; [apply to_micro_of_micro | now apply of_micro_ok].
Qed.

Lemma datetime_sub_ok d delta q :
  datetime_sub d delta = Ok q ->
  to_micro q = to_micro d - timedelta_micro delta /\ datetime_ok q = true.
Proof.
  unfold datetime_sub. intros H.
  apply add_datetime_timedelta_ok in H as [E Hok].
  split; [lia | assumption].
Qed.

Lemma datetime_add_ok d delta q :
  datetime_add d delta = Ok q ->
  to_micro q = to_micro d + timedelta_micro delta /\ datetime_ok q = true.
Proof.
  unfold datetime_add. intros H.
  apply add_datetime_timedelta_ok in H as [E Hok].
  split; [lia | assumption].
Qed.

(** The query that [query_orbit_for_product] has sent carries the two
    bounds it has computed. *)
Lemma query_orbit_for_product_sent S1Product_of_str api_query product
    product_type t0_margin t1_margin log p q :
  match product with inl s => S1Product_of_str s | inr p' => Ok p' end = Ok p ->
  snd (ScihubGnssClient.query_orbit_for_product S1Product_of_str api_query
         product product_type t0_margin t1_margin log) = log ++ [q] ->
  datetime_sub (start_time p) (default (timedelta_days 1) t0_margin)
    = Ok (fst (date q))
  /\ datetime_add (stop_time p) (default (timedelta_days 1) t1_margin)
     = Ok (snd (date q)).
Proof.
  intros Hp. unfold ScihubGnssClient.query_orbit_for_product. cbv zeta.
  rewrite Hp. unfold ScihubGnssClient.T0, ScihubGnssClient.T1.
  assert (Hno : log <> log ++ [q]).
  { intros E. apply (f_equal (@List.length _)) in E.
    rewrite length_app in E. cbn in E. lia. }
  destruct (datetime_sub _ _) as [q0|e]; [|cbn; intros E; now apply Hno in E].
  destruct (datetime_add _ _) as [q1|e]; [|cbn; intros E; now apply Hno in E].
  unfold ScihubGnssClient.query_orbit.
  destruct (negb _); [cbn; intros E; now apply Hno in E|].
  destruct (negb _); [cbn; intros E; now apply Hno in E|].
  cbn [snd]. intros E. apply app_inv_head in E. injection E as <-.
  split; reflexivity.
Qed.

(** X16. The interval of the query that [query_orbit_for_product] sends is
    the window of the product moved out by the margins on the time line:
    its start is [t0_margin] before the start of the product and its end is
    [t1_margin] after the end, to the microsecond; a margin left out is
    86 400 seconds. *)
Theorem query_orbit_for_product_interval_on_time_line :
  forall (S1Product_of_str : string -> result S1Product)
         (api_query : query -> result (list (string * entry)))
         (product : string + S1Product) (p : S1Product)
         (product_type : option string)
         (t0_margin t1_margin : option timedelta)
         (log : list query) (q : query),
    match product with inl s => S1Product_of_str s | inr p' => Ok p' end = Ok p ->
    snd (ScihubGnssClient.query_orbit_for_product S1Product_of_str api_query
           product product_type t0_margin t1_margin log) = log ++ [q] ->
    to_micro (fst (date q)) =
      to_micro (start_time p)
      - timedelta_micro (default ScihubGnssClient.T0 t0_margin)
    /\ to_micro (snd (date q)) =
       to_micro (stop_time p)
       + timedelta_micro (default ScihubGnssClient.T1 t1_margin)
    /\ timedelta_micro ScihubGnssClient.T0 = 86400 * 1000000
    /\ timedelta_micro ScihubGnssClient.T1 = 86400 * 1000000.
Proof.
  intros S1Product_of_str api_query product p product_type t0_margin t1_margin
         log q Hp Hq.
  destruct (query_orbit_for_product_sent _ _ _ _ _ _ _ _ _ Hp Hq) as [H0 H1].
  destruct (datetime_sub_ok _ _ _ H0) as [E0 _].
  destruct (datetime_add_ok _ _ _ H1) as [E1 _].
  split; [exact E0|]. split; [exact E1|]. split; reflexivity.
Qed.

(** X17. For a product whose window is made of datetimes, and margins that
    are not negative, the interval of the query contains the window of the
    product in the order the selector compares with: every record that
    covers the interval of the query covers the window. *)
Theorem query_orbit_for_product_interval_contains_window :
  forall (S1Product_of_str : string -> result S1Product)
         (api_query : query -> result (list (string * entry)))
         (product : string + S1Product) (p : S1Product)
         (product_type : option string)
         (t0_margin t1_margin : option timedelta)
         (log : list query) (q : query),
    match product with inl s => S1Product_of_str s | inr p' => Ok p' end = Ok p ->
    datetime_ok (start_time p) = true ->
    datetime_ok (stop_time p) = true ->
    0 <= timedelta_micro (default ScihubGnssClient.T0 t0_margin) ->
    0 <= timedelta_micro (default ScihubGnssClient.T1 t1_margin) ->
    snd (ScihubGnssClient.query_orbit_for_product S1Product_of_str api_query
           product product_type t0_margin t1_margin log) = log ++ [q] ->
    dt_le (fst (date q)) (start_time p)
    /\ dt_le (stop_time p) (snd (date q))
    /\ (forall r, Covers (fst (date q)) (snd (date q)) r ->
                  Covers (start_time p) (stop_time p) r).
Proof.
  intros S1Product_of_str api_query product p product_type t0_margin t1_margin
         log q Hp Hs He Hm0 Hm1 Hq.
  destruct (query_orbit_for_product_sent _ _ _ _ _ _ _ _ _ Hp Hq) as [H0 H1].
  destruct (datetime_sub_ok _ _ _ H0) as [E0 Hok0].
  destruct (datetime_add_ok _ _ _ H1) as [E1 Hok1].
  change (default ScihubGnssClient.T0 t0_margin)
    with (default (timedelta_days 1) t0_margin) in Hm0.
  change (default ScihubGnssClient.T1 t1_margin)
    with (default (timedelta_days 1) t1_margin) in Hm1.
  assert (L0 : dt_le (fst (date q)) (start_time p))
    by (apply to_micro_le_iff; [assumption | assumption | lia]).
  assert (L1 : dt_le (stop_time p) (snd (date q)))
    by (apply to_micro_le_iff; [assumption | assumption | lia]).
  split; [assumption|]. split; [assumption|].
  intros r [Hr0 Hr1]. split; eapply dt_le_trans; eauto.
Qed.

(** X18. An orbit file that [query_orbit_for_product] returns covers the
    window of the product itself, not only the widened interval: the
    selection is not empty, and the identifier of each of its entries is
    parsed to a record whose validity contains [start_time .. stop_time]. *)
Theorem query_orbit_for_product_returns_covering_orbit :
  forall (S1Product_of_str : string -> result S1Product)
         (api_query : query -> result (list (string * entry)))
         (product : string + S1Product) (p : S1Product)
         (product_type : option string)
         (t0_margin t1_margin : option timedelta)
         (log log' : list query) (selected : list (string * entry)),
    match product with inl s => S1Product_of_str s | inr p' => Ok p' end = Ok p ->
    ScihubGnssClient.query_orbit_for_product S1Product_of_str api_query
      product product_type t0_margin t1_margin log = (Ok selected, log') ->
    selected <> []
    /\ forall kv, In kv selected ->
         exists r,
           get_validity_info [identifier (snd kv)] = Ok [r]
           /\ Covers (start_time p) (stop_time p) r.
Proof.
  intros S1Product_of_str api_query product p product_type t0_margin t1_margin
         log log' selected Hp H.
  pose proof (query_orbit_for_product_at_most_one_query_aux S1Product_of_str
                api_query product product_type t0_margin t1_margin log) as Hq.
  cbv zeta in Hq. rewrite H in Hq. cbn [fst snd] in Hq.
  destruct Hq as [(_ & e & He) | (p' & q & Hp' & _ & _ & _ & Hsel)];
    [discriminate He|].
  assert (p' = p) by congruence. subst p'.
  destruct (api_query q) as [products|e]; [|discriminate Hsel].
  symmetry in Hsel.
  destruct (select_orbit_ok_inv _ _ _ _ Hsel)
    as (Hne & id & r & _ & Hmem & Hr & Hc & _).
  split; [assumption|].
  intros kv Hkv. apply Hmem in Hkv as [_ Hid]. exists r.
  rewrite Hid. auto.
Qed.

(** * The further properties on examples *)

Lemma lastval_cover_returns_first_latest_covering_witness :
  let t0 := Scenario.dt 2020 6 1 0 0 0 in
  let t1 := Scenario.dt 2020 6 2 0 0 0 in
  let data := [Scenario.record_B3; Scenario.record_B5; Scenario.record_B5'] in
  exists pre r post,
    data = pre ++ r :: post
    /\ product_id r = "B5"%string
    /\ Covers t0 t1 r
    /\ (forall x, In x data -> Covers t0 t1 x ->
                  dt_le (generation_date x) (generation_date r))
    /\ (forall x, In x pre -> Covers t0 t1 x ->
                  dt_lt (generation_date x) (generation_date r)).
Proof.
  cbv zeta. apply lastval_cover_returns_first_latest_covering. reflexivity.
Defined.

(** The interval of scenario B, narrowed to six hours of its first day. *)
Lemma lastval_cover_narrower_interval_witness :
  let data := [Scenario.record_B3; Scenario.record_B5] in
  exists r r',
    In r data /\ product_id r = "B5"%string
    /\ In r' data
    /\ lastval_cover (Scenario.dt 2020 6 1 6 0 0) (Scenario.dt 2020 6 1 12 0 0)
         data = Ok (product_id r')
    /\ dt_le (generation_date r) (generation_date r').
Proof.
  cbv zeta.
  apply (lastval_cover_narrower_interval
           (Scenario.dt 2020 6 1 0 0 0) (Scenario.dt 2020 6 2 0 0 0)).
  - apply dt_leb_spec. reflexivity.
  - apply dt_leb_spec. reflexivity.
  - reflexivity.
Defined.

(** The identifier of scenario D with a file extension. *)
Lemma get_validity_info_ignores_after_word_characters_witness :
  matches (Scenario.id_D ++ String "." "EOF") = matches Scenario.id_D
  /\ (forall r,
        get_validity_info [Scenario.id_D] = Ok [r] ->
        get_validity_info [(Scenario.id_D ++ String "." "EOF")%string] =
        Ok [mk_ValidityInfo (Scenario.id_D ++ String "." "EOF")
              (generation_date r) (start_validity r) (stop_validity r)]).
Proof.
  apply get_validity_info_ignores_after_word_characters; reflexivity.
Defined.

(** The answer of the catalog for platform 1A and the window of the
    product. *)
Lemma select_orbit_returns_latest_covering_entries_witness :
  let products := [("uuid-A"%string, ScriptScenario.entry_A)] in
  let t0 := Scenario.dt 2020 6 1 12 0 0 in
  let t1 := Scenario.dt 2020 6 1 12 0 25 in
  products <> []
  /\ exists id r,
       products =
         List.filter (fun kv => String.eqb (identifier (snd kv)) id) products
       /\ (forall kv, In kv products <->
                      In kv products /\ identifier (snd kv) = id)
       /\ get_validity_info [id] = Ok [r]
       /\ Covers t0 t1 r
       /\ (forall kv r', In kv products ->
             get_validity_info [identifier (snd kv)] = Ok [r'] ->
             Covers t0 t1 r' ->
             dt_le (generation_date r') (generation_date r)).
Proof.
  cbv zeta.
  apply (select_orbit_returns_latest_covering_entries
           [("uuid-A"%string, ScriptScenario.entry_A)]
           [("uuid-A"%string, ScriptScenario.entry_A)]).
  reflexivity.
Defined.

(** An answer with an identifier the pattern does not match. *)
Lemma select_orbit_raises_value_errors_witness :
  let e := ValueError (no_match_msg Scenario.id_garbage) in
  (type_of e = TValueError \/ type_of e = TValidityError)
  /\ isinstance e TValueError = true.
Proof.
  cbv zeta.
  apply (select_orbit_raises_value_errors
           [("uuid-A"%string, ScriptScenario.entry_A);
            ("uuid-X"%string, mk_entry Scenario.id_garbage [])]
           (Scenario.dt 2020 6 1 12 0 0) (Scenario.dt 2020 6 1 12 0 25)).
  reflexivity.
Defined.

(** The orbit file of June 2020 and a window in 2021. *)
Lemma select_orbit_no_cover_raises_witness :
  ScihubGnssClient._select_orbit [("uuid-A"%string, ScriptScenario.entry_A)]
    (Scenario.dt 2021 6 1 12 0 0) (Scenario.dt 2021 6 1 12 0 25) =
  Raise (ValidityError
           (no_cover_msg (Scenario.dt 2021 6 1 12 0 0)
                         (Scenario.dt 2021 6 1 12 0 25))).
Proof.
  apply select_orbit_no_cover_raises.
  constructor; [|constructor].
  eexists. split; [reflexivity|].
  intros [_ H]. apply dt_leb_spec in H. discriminate H.
Defined.

(** One product of each satellite. *)
Lemma main_queries_each_product_once_witness :
  let d := [("uuid-A"%string, ScriptScenario.entry_A);
            ("uuid-B"%string, ScriptScenario.entry_B)] in
  let log :=
    [mk_query "AUX_POEORB" "1A"
       (Scenario.dt 2020 5 31 12 0 0, Scenario.dt 2020 6 2 12 0 25);
     mk_query "AUX_POEORB" "1B"
       (Scenario.dt 2020 5 31 12 0 10, Scenario.dt 2020 6 2 12 0 35)] in
  Forall2 (fun name qu =>
             exists sel,
               ScihubGnssClient.query_orbit_for_product
                 ScriptScenario.product_of_name ScriptScenario.catalog
                 (inl name) None None None [] = (Ok sel, [qu]))
          [ScriptScenario.name_A; ScriptScenario.name_B] log
  /\ List.length d = 2%nat
  /\ List.NoDup (map fst d).
Proof.
  cbv zeta.
  apply (main_queries_each_product_once
           ScriptScenario.product_of_name ScriptScenario.catalog
           ScriptScenario.name_A [ScriptScenario.name_B]).
  reflexivity.
Defined.

(** The product of Sentinel-1A named twice. *)
Lemma main_same_product_twice_witness :
  main ScriptScenario.product_of_name ScriptScenario.catalog
    ScriptScenario.name_A [ScriptScenario.name_A] =
  (Raise AssertionError,
   [mk_query "AUX_POEORB" "1A"
      (Scenario.dt 2020 5 31 12 0 0, Scenario.dt 2020 6 2 12 0 25);
    mk_query "AUX_POEORB" "1A"
      (Scenario.dt 2020 5 31 12 0 0, Scenario.dt 2020 6 2 12 0 25)]).
Proof.
  apply (main_same_product_twice
           ScriptScenario.product_of_name ScriptScenario.catalog
           ScriptScenario.name_A [("uuid-A"%string, ScriptScenario.entry_A)]).
  - reflexivity.
  - constructor; [intros [] | constructor].
  - discriminate.
Defined.

(** A name the product class rejects, between two it accepts. *)
Lemma main_stops_at_first_failure_witness :
  exists log,
    main ScriptScenario.product_of_name ScriptScenario.catalog
      ScriptScenario.name_A [Scenario.id_garbage; ScriptScenario.name_B] =
      (Raise (ValueError "not a Sentinel-1 product"), log)
    /\ List.length log = 1%nat.
Proof.
  apply (main_stops_at_first_failure
           ScriptScenario.product_of_name ScriptScenario.catalog
           ScriptScenario.name_A [Scenario.id_garbage; ScriptScenario.name_B]
           [ScriptScenario.name_A] [ScriptScenario.name_B] Scenario.id_garbage
           (ValueError "not a Sentinel-1 product") []).
  - reflexivity.
  - constructor; [eexists; reflexivity | constructor].
  - reflexivity.
Defined.

(** The product of Sentinel-1A with the margins left out. *)
Lemma query_orbit_for_product_interval_on_time_line_witness :
  let q0 := Scenario.dt 2020 5 31 12 0 0 in
  let q1 := Scenario.dt 2020 6 2 12 0 25 in
  to_micro q0 =
    to_micro (Scenario.dt 2020 6 1 12 0 0) - timedelta_micro ScihubGnssClient.T0
  /\ to_micro q1 =
     to_micro (Scenario.dt 2020 6 1 12 0 25) + timedelta_micro ScihubGnssClient.T1
  /\ timedelta_micro ScihubGnssClient.T0 = 86400 * 1000000
  /\ timedelta_micro ScihubGnssClient.T1 = 86400 * 1000000.
Proof.
  cbv zeta.
  apply (query_orbit_for_product_interval_on_time_line
           ScriptScenario.product_of_name ScriptScenario.catalog
           (inr Scenario.product_S1A) Scenario.product_S1A None None None []
           (mk_query "AUX_POEORB" "1A"
              (Scenario.dt 2020 5 31 12 0 0, Scenario.dt 2020 6 2 12 0 25)));
    reflexivity.
Defined.

Lemma query_orbit_for_product_interval_contains_window_witness :
  let q0 := Scenario.dt 2020 5 31 12 0 0 in
  let q1 := Scenario.dt 2020 6 2 12 0 25 in
  dt_le q0 (Scenario.dt 2020 6 1 12 0 0)
  /\ dt_le (Scenario.dt 2020 6 1 12 0 25) q1
  /\ (forall r, Covers q0 q1 r ->
                Covers (Scenario.dt 2020 6 1 12 0 0)
                       (Scenario.dt 2020 6 1 12 0 25) r).
Proof.
  cbv zeta.
  apply (query_orbit_for_product_interval_contains_window
           ScriptScenario.product_of_name ScriptScenario.catalog
           (inr Scenario.product_S1A) Scenario.product_S1A None None None []
           (mk_query "AUX_POEORB" "1A"
              (Scenario.dt 2020 5 31 12 0 0, Scenario.dt 2020 6 2 12 0 25))).
  - reflexivity.
  - reflexivity.
  - reflexivity.
  - vm_compute. discriminate.
  - vm_compute. discriminate.
  - reflexivity.
Defined.

Lemma query_orbit_for_product_returns_covering_orbit_witness :
  let selected := [("uuid-A"%string, ScriptScenario.entry_A)] in
  selected <> []
  /\ forall kv, In kv selected ->
       exists r,
         get_validity_info [identifier (snd kv)] = Ok [r]
         /\ Covers (start_time Scenario.product_S1A)
                   (stop_time Scenario.product_S1A) r.
Proof.
  cbv zeta.
  apply (query_orbit_for_product_returns_covering_orbit
           ScriptScenario.product_of_name ScriptScenario.catalog
           (inl ScriptScenario.name_A) Scenario.product_S1A None None None []
           [mk_query "AUX_POEORB" "1A"
              (Scenario.dt 2020 5 31 12 0 0, Scenario.dt 2020 6 2 12 0 25)]);
    reflexivity.
Defined.
